(** * zendesk_macro: the macro resource of the Zendesk Terraform provider

    A shallow embedding of [zendesk/resource_zendesk_macro.go]: the schema
    table, the two mapping functions [marshalMacro] / [unmarshalMacro] and the
    four lifecycle functions [createMacro], [readMacro], [updateMacro] and
    [deleteMacro], together with the two pieces of the Go standard library the
    identifier handling rests on ([strconv.ParseInt] and the [%d] verb of
    [fmt.Sprintf]). *)

From Stdlib Require Import ZArith Lia Ascii String List.
From stdpp Require Import base option gmap strings.
Import ListNotations.

Local Open Scope Z_scope.

(** ** Outcomes of Go code

    A Go function either returns or panics (a failed type assertion [v.(T)]
    is a run-time panic); a function of result type [(T, error)] that returns
    gives a value or an error. *)

Inductive exec (A : Type) : Type :=
| Returns (a : A)
| Panics.
Arguments Returns {A} a.
Arguments Panics {A}.

Definition exec_bind {A B : Type} (x : exec A) (k : A -> exec B) : exec B :=
  match x with
  | Returns a => k a
  | Panics => Panics
  end.

Notation "'do' x <- e ; k" := (exec_bind e (fun x => k))
  (at level 10, x name, e at level 100, k at level 200).

(** ** strconv and fmt *)

Module strconv.

(** [strconv.ErrSyntax] and [strconv.ErrRange]. *)
Inductive numErr : Type := ErrSyntax | ErrRange.

Definition maxUint64 : Z := 2 ^ 64 - 1.

Definition byte_of (c : ascii) : Z := Z.of_N (N_of_ascii c).
Definition char_of (b : Z) : ascii := ascii_of_N (Z.to_N b).

(** [lower(c)] is [c | ('x' - 'X')]. *)
Definition lower (c : Z) : Z := Z.lor c 32.

(** The digit switch of the [ParseUint] loop, for a base other than 0:
    [None] is the [default] branch. *)
Definition digit (c : Z) : option Z :=
  if (48 <=? c) && (c <=? 57) then Some (c - 48)
  else if (97 <=? lower c) && (lower c <=? 122) then Some (lower c - 97 + 10)
  else None.

(** The loop of [ParseUint(s, 10, 64)], with [n] the number read so far:
    the pair is Go's [(uint64, error)].  Over [Z] the wrap-around test
    [n1 < n || n1 > maxVal] of the source is [maxUint64 < n1]. *)
Fixpoint parseUintLoop (n : Z) (s : string) : Z * option numErr :=
  match s with
  | EmptyString => (n, None)
  | String c rest =>
      match digit (byte_of c) with
      | None => (0, Some ErrSyntax)
      | Some d =>
          if 10 <=? d then (0, Some ErrSyntax)
          else if maxUint64 / 10 + 1 <=? n then (maxUint64, Some ErrRange)
          else
            let n1 := n * 10 + d in
            if maxUint64 <? n1 then (maxUint64, Some ErrRange)
            else parseUintLoop n1 rest
      end
  end.

Definition ParseUint (s : string) : Z * option numErr :=
  match s with
  | EmptyString => (0, Some ErrSyntax)
  | _ => parseUintLoop 0 s
  end.

(** [ParseInt(s, 10, 64)]. *)
Definition ParseInt (s : string) : Z * option numErr :=
  match s with
  | EmptyString => (0, Some ErrSyntax)
  | String c rest =>
      let '(neg, s1) :=
        if Ascii.eqb c "+" then (false, rest)
        else if Ascii.eqb c "-" then (true, rest)
        else (false, s) in
      let '(un, err) := ParseUint s1 in
      match err with
      | Some ErrSyntax => (0, Some ErrSyntax)
      | _ =>
          let cutoff := 2 ^ 63 in
          if negb neg && (cutoff <=? un) then (cutoff - 1, Some ErrRange)
          else if neg && (cutoff <? un) then (- cutoff, Some ErrRange)
          else ((if neg then - un else un), None)
      end
  end.

(** The digit loop of [fmtInteger] for base 10: digits are written from the
    end of the buffer, [acc] is what has been written.  The loop divides [u]
    by 10 until it is below 10; [fuel] bounds its iterations, and a [u] below
    [2 ^ (fuel + 1)] is printed in full. *)
Fixpoint fmtDigits (fuel : nat) (u : Z) (acc : string) : string :=
  match fuel with
  | O => String (char_of (48 + u)) acc
  | S fuel' =>
      if 10 <=? u then
        let next := u / 10 in
        fmtDigits fuel' next (String (char_of (48 + u - next * 10)) acc)
      else String (char_of (48 + u)) acc
  end.

(** [fmt.Sprintf("%d", v)] for an [int64] [v]: a minus sign for a negative
    [v], then the decimal digits of its magnitude. *)
Definition FormatInt (v : Z) : string :=
  let negative := v <? 0 in
  let u := if negative then - v else v in
  let digits := fmtDigits (Z.to_nat (Z.log2 u)) u EmptyString in
  if negative then String "-" digits else digits.

End strconv.

(** The values of Go's [int64]. *)
Definition int64 (n : Z) : Prop := - 2 ^ 63 <= n < 2 ^ 63.

(** ** The data model *)

(** [client.MacroAction] and [client.Macro], with the fields the resource
    maps (the two timestamps of [client.Macro] are never read or written
    here). *)
Record MacroAction : Type := { Field : string; Value : string }.

Record Macro : Type := {
  ID : Z;
  URL : string;
  Title : string;
  Description : string;
  Position : Z;
  Restriction : string;
  Active : bool;
  Actions : list MacroAction
}.

(** [client.Macro{}]. *)
Definition zeroMacro : Macro :=
  {| ID := 0; URL := ""; Title := ""; Description := ""; Position := 0;
     Restriction := ""; Active := false; Actions := [] |}.

Definition withID (m : Macro) (x : Z) : Macro :=
  {| ID := x; URL := URL m; Title := Title m; Description := Description m;
     Position := Position m; Restriction := Restriction m; Active := Active m;
     Actions := Actions m |}.
Definition withURL (m : Macro) (x : string) : Macro :=
  {| ID := ID m; URL := x; Title := Title m; Description := Description m;
     Position := Position m; Restriction := Restriction m; Active := Active m;
     Actions := Actions m |}.
Definition withTitle (m : Macro) (x : string) : Macro :=
  {| ID := ID m; URL := URL m; Title := x; Description := Description m;
     Position := Position m; Restriction := Restriction m; Active := Active m;
     Actions := Actions m |}.
Definition withDescription (m : Macro) (x : string) : Macro :=
  {| ID := ID m; URL := URL m; Title := Title m; Description := x;
     Position := Position m; Restriction := Restriction m; Active := Active m;
     Actions := Actions m |}.
Definition withPosition (m : Macro) (x : Z) : Macro :=
  {| ID := ID m; URL := URL m; Title := Title m; Description := Description m;
     Position := x; Restriction := Restriction m; Active := Active m;
     Actions := Actions m |}.
Definition withRestriction (m : Macro) (x : string) : Macro :=
  {| ID := ID m; URL := URL m; Title := Title m; Description := Description m;
     Position := Position m; Restriction := x; Active := Active m;
     Actions := Actions m |}.
Definition withActive (m : Macro) (x : bool) : Macro :=
  {| ID := ID m; URL := URL m; Title := Title m; Description := Description m;
     Position := Position m; Restriction := Restriction m; Active := x;
     Actions := Actions m |}.
Definition withActions (m : Macro) (x : list MacroAction) : Macro :=
  {| ID := ID m; URL := URL m; Title := Title m; Description := Description m;
     Position := Position m; Restriction := Restriction m; Active := Active m;
     Actions := x |}.

#[local] Set Warnings "-register-all".

(** Go's [interface{}]: the dynamic values that travel through the attribute
    bag.  [VSlice] is a [[]interface{}], [VMap] a [map[string]interface{}]
    and [VMacroActions] a [[]client.MacroAction]: three different dynamic
    types, told apart by a type assertion. *)
Inductive any : Type :=
| VString (s : string)
| VInt (n : Z)
| VBool (b : bool)
| VSlice (l : list any)
| VMap (m : gmap string any)
| VMacroActions (l : list MacroAction).

(** The type assertions [v.(string)], [v.(int)], [v.(bool)],
    [v.([]interface{})] and [v.(map[string]interface{})]. *)
Definition assertString (v : any) : exec string :=
  match v with VString s => Returns s | _ => Panics end.
Definition assertInt (v : any) : exec Z :=
  match v with VInt n => Returns n | _ => Panics end.
Definition assertBool (v : any) : exec bool :=
  match v with VBool b => Returns b | _ => Panics end.
Definition assertSlice (v : any) : exec (list any) :=
  match v with VSlice l => Returns l | _ => Panics end.
Definition assertMap (v : any) : exec (gmap string any) :=
  match v with VMap m => Returns m | _ => Panics end.

(** [actionMap[k].(string)]: indexing a missing key gives the nil interface,
    on which the assertion panics as well. *)
Definition indexString (m : gmap string any) (k : string) : exec string :=
  match m !! k with
  | Some v => assertString v
  | None => Panics
  end.

(** Go [error] values met in this file. *)
Inductive error : Type :=
| NumError (Func Num : string) (Err : strconv.numErr)
| ErrorfParseId (v : string) (err : error)
| ErrorString (msg : string).

Inductive result (A : Type) : Type :=
| Ok (a : A)
| Err (e : error).
Arguments Ok {A} a.
Arguments Err {A} e.

(** [strconv.ParseInt(s, 10, 64)] with its [*NumError]. *)
Definition ParseInt (s : string) : result Z :=
  match strconv.ParseInt s with
  | (n, None) => Ok n
  | (_, Some e) => Err (NumError "ParseInt" s e)
  end.

(** [diag.Diagnostics] and [diag.FromErr], called here on non-nil errors
    only. *)
Inductive Severity : Type := Error | Warning.
Record Diagnostic : Type := { severity : Severity; Summary : error }.

Definition FromErr (err : error) : list Diagnostic :=
  [ {| severity := Error; Summary := err |} ].

(** ** The attribute bag *)

(** Modelled from the spec: the accessor interface [identifiable], declared
    outside this file, with its one method [Id() -> string]: the bag's
    identifier slot. *)
Class identifiable (D : Type) : Type := { Id : D -> string }.

(** Modelled from the spec: the accessor interface
    [identifiableGetterSetter], declared outside this file: an [identifiable]
    with [SetId(string)], [GetOk(key) -> (value, presentBool)] and
    [Set(key, value) -> error].  The Go methods mutate the bag in place; here
    [SetId] and [Set_] give the bag after the call. *)
Class identifiableGetterSetter (D : Type) : Type := {
  #[global] getterSetter_identifiable :: identifiable D;
  SetId : D -> string -> D;
  GetOk : D -> string -> option any;
  Set_ : D -> string -> any -> D * option error
}.

(** What the lifecycle asks of a bag's identifier slot: [SetId] puts the
    string in the slot, and a [Set], accepted or not, leaves the slot alone. *)
Class IdentifierSlot (D : Type) `{identifiableGetterSetter D} : Prop := {
  Id_SetId : forall (d : D) (v : string), Id (SetId d v) = v;
  Id_Set : forall (d : D) (k : string) (v : any), Id (fst (Set_ d k v)) = Id d
}.

(** A bag that stores what it is given, as a Go map does: after an accepted
    [Set] of [v] under [k], [GetOk] gives [v] itself under [k] and what it gave
    before under every other key. *)
Class StoresValues (D : Type) `{identifiableGetterSetter D} : Prop := {
  GetOk_Set : forall (d : D) (k k' : string) (v : any),
    snd (Set_ d k v) = None ->
    GetOk (fst (Set_ d k v)) k' = if String.eqb k k' then Some v else GetOk d k'
}.

(** The test double of the repository, [identifiableMapGetterSetter]: a Go
    map from field names to values and an identifier. *)
Record identifiableMapGetterSetter : Type := {
  mapGetterSetter : gmap string any;
  id : string
}.

(** Modelled from the spec: the [Id] method of the test double, declared
    outside this file: it reads the identifier. *)
#[export] Instance mapBag_identifiable : identifiable identifiableMapGetterSetter :=
  {| Id := id |}.

(** Modelled from the spec: the other methods of the test double, declared
    outside this file: [SetId] replaces the identifier, [GetOk] looks the key
    up in the map and says whether it is there, [Set] stores the value it is
    given under the key and never rejects it. *)
#[export] Instance mapBag : identifiableGetterSetter identifiableMapGetterSetter :=
  {| SetId := fun d v => {| mapGetterSetter := mapGetterSetter d; id := v |};
     GetOk := fun d k => mapGetterSetter d !! k;
     Set_ := fun d k v =>
       ({| mapGetterSetter := <[k := v]> (mapGetterSetter d); id := id d |}, None) |}.

(** Modelled from the spec: [setSchemaFields], declared outside this file,
    writes every field of [fields] into the bag and stops at the first write
    the bag rejects. *)
Fixpoint setSchemaFields {D : Type} `{identifiableGetterSetter D}
    (d : D) (fields : list (string * any)) : D * option error :=
  match fields with
  | [] => (d, None)
  | (k, v) :: rest =>
      match Set_ d k v with
      | (d', Some err) => (d', Some err)
      | (d', None) => setSchemaFields d' rest
      end
  end.

(** ** The schema descriptor *)

Module schema.

(** [schema.ValueType]: the types the resource uses. *)
Inductive ValueType : Type := TypeBool | TypeInt | TypeString | TypeList.

(** [schema.Schema], with the fields [resourceZendeskMacro] fills in; [Elem]
    is the schema map of the nested resource of a list. *)
Inductive Schema : Type := mkSchema {
  Description : string;
  Type_ : ValueType;
  Required : bool;
  Optional : bool;
  Computed : bool;
  Default : option any;
  Elem : list (string * Schema)
}.

End schema.

(** The [Schema] map of the [Elem] resource of ["actions"]. *)
Definition actionResource : list (string * schema.Schema) :=
  [ ("field",
      {| schema.Description := "The field of the action.";
         schema.Type_ := schema.TypeString;
         schema.Required := true; schema.Optional := false; schema.Computed := false;
         schema.Default := None; schema.Elem := [] |});
    ("value",
      {| schema.Description := "The value of the action.";
         schema.Type_ := schema.TypeString;
         schema.Required := true; schema.Optional := false; schema.Computed := false;
         schema.Default := None; schema.Elem := [] |}) ].

(** The [Schema] map of [resourceZendeskMacro]. *)
Definition resourceZendeskMacro : list (string * schema.Schema) :=
  [ ("url",
      {| schema.Description := "The URL for this macro.";
         schema.Type_ := schema.TypeString;
         schema.Required := false; schema.Optional := false; schema.Computed := true;
         schema.Default := None; schema.Elem := [] |});
    ("title",
      {| schema.Description := "The title of the macro.";
         schema.Type_ := schema.TypeString;
         schema.Required := true; schema.Optional := false; schema.Computed := false;
         schema.Default := None; schema.Elem := [] |});
    ("description",
      {| schema.Description := "The description of the macro.";
         schema.Type_ := schema.TypeString;
         schema.Required := false; schema.Optional := true; schema.Computed := false;
         schema.Default := None; schema.Elem := [] |});
    ("position",
      {| schema.Description := "The position of the macro.";
         schema.Type_ := schema.TypeInt;
         schema.Required := false; schema.Optional := true; schema.Computed := false;
         schema.Default := None; schema.Elem := [] |});
    ("restriction",
      {| schema.Description := "The restriction of the macro.";
         schema.Type_ := schema.TypeString;
         schema.Required := false; schema.Optional := true; schema.Computed := false;
         schema.Default := None; schema.Elem := [] |});
    ("active",
      {| schema.Description := "The active status of the macro.";
         schema.Type_ := schema.TypeBool;
         schema.Required := false; schema.Optional := true; schema.Computed := false;
         schema.Default := Some (VBool true); schema.Elem := [] |});
    ("actions",
      {| schema.Description := "The actions of the macro.";
         schema.Type_ := schema.TypeList;
         schema.Required := true; schema.Optional := false; schema.Computed := false;
         schema.Default := None;
         schema.Elem := actionResource |}) ].

(** The entry of a schema map under a key. *)
Fixpoint schemaOf (table : list (string * schema.Schema)) (k : string)
  : option schema.Schema :=
  match table with
  | [] => None
  | (k', s) :: rest => if String.eqb k k' then Some s else schemaOf rest k
  end.

(** A bag has the shape the schema declares when every declared key it holds
    has a value of the declared type: a string, an int, a bool, or a list of
    records that hold each required field of the nested resource. *)
Definition scalarHasType (t : schema.ValueType) (v : any) : bool :=
  match t, v with
  | schema.TypeString, VString _ => true
  | schema.TypeInt, VInt _ => true
  | schema.TypeBool, VBool _ => true
  | _, _ => false
  end.

Definition recordHasType (elem : list (string * schema.Schema)) (v : any) : bool :=
  match v with
  | VMap m =>
      forallb (fun '(k, s) =>
                 match m !! k with
                 | Some x => scalarHasType (schema.Type_ s) x
                 | None => negb (schema.Required s)
                 end) elem
  | _ => false
  end.

Definition hasType (s : schema.Schema) (v : any) : bool :=
  match schema.Type_ s with
  | schema.TypeList =>
      match v with
      | VSlice l => forallb (recordHasType (schema.Elem s)) l
      | _ => false
      end
  | t => scalarHasType t v
  end.

Definition conforms {D : Type} `{identifiableGetterSetter D} (d : D) : bool :=
  forallb (fun '(k, s) =>
             match GetOk d k with
             | Some v => hasType s v
             | None => true
             end) resourceZendeskMacro.

(** ** The mapper *)

(** [marshalMacro] encodes the provided macro into the provided resource data. *)
Definition marshalMacro {D : Type} `{identifiableGetterSetter D} (field : Macro) (d : D)
  : D * option error :=
  let fields :=
    [ ("url", VString (URL field));
      ("title", VString (Title field));
      ("description", VString (Description field));
      ("position", VInt (Position field));
      ("restriction", VString (Restriction field));
      ("active", VBool (Active field));
      ("actions", VMacroActions (Actions field)) ] in
  match setSchemaFields d fields with
  | (d', Some err) => (d', Some err)
  | (d', None) => (d', None)
  end.

(** The body of the [for _, action := range actions] loop, with [acts] the
    value of [m.Actions] on entry. *)
Fixpoint appendActions (acts : list MacroAction) (actions : list any)
  : exec (list MacroAction) :=
  match actions with
  | [] => Returns acts
  | action :: rest =>
      do actionMap <- assertMap action;
      do f <- indexString actionMap "field";
      do v <- indexString actionMap "value";
      appendActions (acts ++ [ {| Field := f; Value := v |} ]) rest
  end.

(** [if v, ok := d.GetOk(k); ok { m.X = v.(T) }]. *)
Definition readField {D T : Type} `{identifiableGetterSetter D} (d : D) (k : string)
    (assert : any -> exec T) (set : Macro -> T -> Macro) (m : Macro) : exec Macro :=
  match GetOk d k with
  | Some v => do x <- assert v; Returns (set m x)
  | None => Returns m
  end.

(** [unmarshalMacro] parses the provided ResourceData and returns a macro. *)
Definition unmarshalMacro {D : Type} `{identifiableGetterSetter D} (d : D)
  : exec (result Macro) :=
  let m := zeroMacro in
  let v := Id d in
  let parsed :=
    if String.eqb v "" then Ok m
    else match ParseInt v with
         | Err err => Err (ErrorfParseId v err)
         | Ok n => Ok (withID m n)
         end in
  match parsed with
  | Err e => Returns (Err e)
  | Ok m =>
      do m <- readField d "url" assertString withURL m;
      do m <- readField d "title" assertString withTitle m;
      do m <- readField d "description" assertString withDescription m;
      do m <- readField d "position" assertInt withPosition m;
      do m <- readField d "active" assertBool withActive m;
      do m <- readField d "restriction" assertString withRestriction m;
      do m <- match GetOk d "actions" with
              | Some v =>
                  do actions <- assertSlice v;
                  do acts <- appendActions (Actions m) actions;
                  Returns (withActions m acts)
              | None => Returns m
              end;
      Returns (Ok m)
  end.

(** ** The lifecycle adapter *)

(** [client.MacroAPI]: each method makes one remote call and gives a result
    or an error. *)
Record MacroAPI : Type := {
  CreateMacro : Macro -> result Macro;
  GetMacro : Z -> result Macro;
  UpdateMacro : Z -> Macro -> result Macro;
  DeleteMacro : Z -> option error
}.

(** The remote calls a lifecycle function has issued. *)
Inductive Call : Type :=
| CallCreateMacro (m : Macro)
| CallGetMacro (id : Z)
| CallUpdateMacro (id : Z) (m : Macro)
| CallDeleteMacro (id : Z).

(** What a lifecycle function leaves behind when it returns: its
    diagnostics, the bag (which the Go code mutates in place) and the remote
    calls made, oldest first. *)
Record run (D : Type) : Type := {
  diags : list Diagnostic;
  data : D;
  remote : list Call
}.
Arguments diags {D} r.
Arguments data {D} r.
Arguments remote {D} r.

(** [createMacro] creates a new macro. *)
Definition createMacro {D : Type} `{identifiableGetterSetter D} (d : D) (zd : MacroAPI)
  : exec (run D) :=
  do r <- unmarshalMacro d;
  match r with
  | Err err => Returns {| diags := FromErr err; data := d; remote := [] |}
  | Ok m =>
      match CreateMacro zd m with
      | Err err =>
          Returns {| diags := FromErr err; data := d; remote := [CallCreateMacro m] |}
      | Ok m' =>
          let d1 := SetId d (strconv.FormatInt (ID m')) in
          match marshalMacro m' d1 with
          | (d2, Some err) =>
              Returns {| diags := FromErr err; data := d2; remote := [CallCreateMacro m] |}
          | (d2, None) =>
              Returns {| diags := []; data := d2; remote := [CallCreateMacro m] |}
          end
      end
  end.

(** [readMacro] reads a macro. *)
Definition readMacro {D : Type} `{identifiableGetterSetter D} (d : D) (zd : MacroAPI)
  : exec (run D) :=
  match ParseInt (Id d) with
  | Err err => Returns {| diags := FromErr err; data := d; remote := [] |}
  | Ok id =>
      match GetMacro zd id with
      | Err err => Returns {| diags := FromErr err; data := d; remote := [CallGetMacro id] |}
      | Ok macro =>
          match marshalMacro macro d with
          | (d', Some err) =>
              Returns {| diags := FromErr err; data := d'; remote := [CallGetMacro id] |}
          | (d', None) =>
              Returns {| diags := []; data := d'; remote := [CallGetMacro id] |}
          end
      end
  end.

(** [updateMacro] updates a macro. *)
Definition updateMacro {D : Type} `{identifiableGetterSetter D} (d : D) (zd : MacroAPI)
  : exec (run D) :=
  do r <- unmarshalMacro d;
  match r with
  | Err err => Returns {| diags := FromErr err; data := d; remote := [] |}
  | Ok m =>
      match ParseInt (Id d) with
      | Err err => Returns {| diags := FromErr err; data := d; remote := [] |}
      | Ok id =>
          match UpdateMacro zd id m with
          | Err err =>
              Returns {| diags := FromErr err; data := d; remote := [CallUpdateMacro id m] |}
          | Ok m' =>
              match marshalMacro m' d with
              | (d', Some err) =>
                  Returns {| diags := FromErr err; data := d';
                             remote := [CallUpdateMacro id m] |}
              | (d', None) =>
                  Returns {| diags := []; data := d'; remote := [CallUpdateMacro id m] |}
              end
          end
      end
  end.

(** [deleteMacro] deletes a macro.  Its bag is an [identifiable]: [Id()] is
    the only method it can call, so the bag it leaves is the bag it was given. *)
Definition deleteMacro {D : Type} `{identifiable D} (d : D) (zd : MacroAPI)
  : exec (run D) :=
  match ParseInt (Id d) with
  | Err err => Returns {| diags := FromErr err; data := d; remote := [] |}
  | Ok id =>
      match DeleteMacro zd id with
      | Some err => Returns {| diags := FromErr err; data := d; remote := [CallDeleteMacro id] |}
      | None => Returns {| diags := []; data := d; remote := [CallDeleteMacro id] |}
      end
  end.

(** ** Test doubles and test data *)

(** A bag with no field and the identifier [v]. *)
Definition emptyBag (v : string) : identifiableMapGetterSetter :=
  {| mapGetterSetter := ∅; id := v |}.

(** A scripted client, as the mock of the tests. *)
Definition scripted (created got updated : result Macro) (deleted : option error) : MacroAPI :=
  {| CreateMacro := fun _ => created;
     GetMacro := fun _ => got;
     UpdateMacro := fun _ _ => updated;
     DeleteMacro := fun _ => deleted |}.

(** A client that answers every call with the macro it was sent. *)
Definition echo : MacroAPI :=
  {| CreateMacro := fun m => Ok m;
     GetMacro := fun id => Ok (withID zeroMacro id);
     UpdateMacro := fun _ m => Ok m;
     DeleteMacro := fun _ => None |}.

(** The answer of a scripted client to a call the test does not expect. *)
Definition unused : result Macro := Err (ErrorString "unexpected call").

(** The bag's representation of an action: a record with the keys ["field"]
    and ["value"]. *)
Definition actionRecord (a : MacroAction) : any :=
  VMap (<["field" := VString (Field a)]> (<["value" := VString (Value a)]> ∅)).

(** ** The Macro a decode assembles *)

Definition stringAt {D : Type} `{identifiableGetterSetter D} (d : D) (k : string) : string :=
  match GetOk d k with Some (VString s) => s | _ => "" end.
Definition intAt {D : Type} `{identifiableGetterSetter D} (d : D) (k : string) : Z :=
  match GetOk d k with Some (VInt n) => n | _ => 0 end.
Definition boolAt {D : Type} `{identifiableGetterSetter D} (d : D) (k : string) : bool :=
  match GetOk d k with Some (VBool b) => b | _ => false end.

Definition actionOf (v : any) : MacroAction :=
  match v with
  | VMap m =>
      {| Field := match m !! "field" with Some (VString s) => s | _ => "" end;
         Value := match m !! "value" with Some (VString s) => s | _ => "" end |}
  | _ => {| Field := ""; Value := "" |}
  end.

Definition actionsAt {D : Type} `{identifiableGetterSetter D} (d : D) : list MacroAction :=
  match GetOk d "actions" with Some (VSlice l) => map actionOf l | _ => [] end.

Definition decoded {D : Type} `{identifiableGetterSetter D} (d : D) (n : Z) : Macro :=
  {| ID := n;
     URL := stringAt d "url";
     Title := stringAt d "title";
     Description := stringAt d "description";
     Position := intAt d "position";
     Restriction := stringAt d "restriction";
     Active := boolAt d "active";
     Actions := actionsAt d |}.

(** The identifier step of [unmarshalMacro]. *)
Definition decodedId {D : Type} `{identifiableGetterSetter D} (d : D) : result Z :=
  if String.eqb (Id d) "" then Ok 0
  else match ParseInt (Id d) with
       | Err err => Err (ErrorfParseId (Id d) err)
       | Ok n => Ok n
       end.

(** The data of the repository's tests. *)
Definition testField : Macro :=
  {| ID := 1234; URL := "foobar"; Title := "foobar"; Description := "foobar";
     Position := 50; Restriction := "restriction"; Active := true;
     Actions := [ {| Field := "status"; Value := "open" |} ] |}.

Definition testBag : identifiableMapGetterSetter :=
  {| id := "1234";
     mapGetterSetter :=
       <["url" := VString "https://example.zendesk.com/api/v2/macros/360011737434.json"]>
       (<["title" := VString "title"]>
       (<["description" := VString "description"]>
       (<["position" := VInt 12]>
       (<["active" := VBool true]>
       (<["restriction" := VString "restriction"]>
       (<["actions" := VSlice [ actionRecord {| Field := "status"; Value := "open" |} ]]>
        ∅)))))) |}.

(** The end-to-end scenario of the specification: a create of
    [{title: T, actions: [{status, solved}]}] that the remote system answers
    with id 777. *)
Definition scenarioBag : identifiableMapGetterSetter :=
  {| id := "";
     mapGetterSetter :=
       <["title" := VString "T"]>
       (<["actions" := VSlice [ actionRecord {| Field := "status"; Value := "solved" |} ]]>
        ∅) |}.

Definition scenarioMacro : Macro :=
  {| ID := 777; URL := ""; Title := "T"; Description := ""; Position := 0;
     Restriction := ""; Active := false;
     Actions := [ {| Field := "status"; Value := "solved" |} ] |}.

Definition scenarioClient : MacroAPI := scripted (Ok scenarioMacro) unused unused None.

Definition scenarioRun : run identifiableMapGetterSetter :=
  {| diags := [];
     data := fst (marshalMacro scenarioMacro (SetId scenarioBag "777"));
     remote := [CallCreateMacro (withActions (withTitle zeroMacro "T")
                                   [ {| Field := "status"; Value := "solved" |} ])] |}.

(** The bag of the action-order example: two records, [status] before
    [priority]. *)
Definition orderedBag : identifiableMapGetterSetter :=
  {| id := "";
     mapGetterSetter :=
       <["actions" := VSlice [ actionRecord {| Field := "status"; Value := "open" |};
                               actionRecord {| Field := "priority"; Value := "high" |} ]]>
       ∅ |}.

(** [v] is a record that holds [a]'s field and value under the keys
    ["field"] and ["value"]. *)
Definition isRecordOf (v : any) (a : MacroAction) : bool :=
  match v with
  | VMap m =>
      match m !! "field", m !! "value" with
      | Some (VString f), Some (VString x) => String.eqb f (Field a) && String.eqb x (Value a)
      | _, _ => false
      end
  | _ => false
  end.

(** The value the writes of [fields], made in order, leave under [k]. *)
Fixpoint lastWrite (k : string) (fields : list (string * any)) : option any :=
  match fields with
  | [] => None
  | (k', v) :: rest =>
      match lastWrite k rest with
      | Some x => Some x
      | None => if String.eqb k' k then Some v else None
      end
  end.

(** ** The destroy check of the acceptance tests *)

Module terraform.

(** [terraform.ResourceState], with what [testMacroDestroyed] reads of it:
    [r.Type] and [r.Primary.ID]. *)
Record ResourceState : Type := { Type_ : string; Primary_ID : string }.

End terraform.

Section destroy_check.

(** [err.(zendesk.Error)] followed by [Status()]: the HTTP status of an error
    of the client library, [None] when the assertion's [ok] is false.  The
    type is the client library's. *)
Variable asZendeskError : error -> option Z.

(** The text the [%v] verb prints for an error. *)
Variable errorText : error -> string.

(** [testMacroDestroyed], over the resources of the root module in the order
    the [range] visits them and the client the provider holds: [None] is Go's
    nil error. *)
Fixpoint testMacroDestroyed (client : MacroAPI)
    (resources : list (string * terraform.ResourceState)) : option error :=
  match resources with
  | [] => None
  | (k, r) :: rest =>
      if String.prefix "data" k then testMacroDestroyed client rest
      else if negb (String.eqb (terraform.Type_ r) "zendesk_macro")
      then testMacroDestroyed client rest
      else
        match ParseInt (terraform.Primary_ID r) with
        | Err err => Some err
        | Ok id =>
            match GetMacro client id with
            | Ok _ =>
                Some (ErrorString
                        ("did not get error from zendesk when trying to fetch the destroyed macro named "
                         ++ k))
            | Err err =>
                match asZendeskError err with
                | None =>
                    Some (ErrorString
                            ("error " ++ errorText err
                             ++ " cannot be asserted as a zendesk error"))
                | Some status =>
                    if negb (status =? 404)
                    then Some (ErrorString
                                 ("did not get a not found error after destroy. error was "
                                  ++ errorText err))
                    else testMacroDestroyed client rest
                end
            end
        end
  end.

End destroy_check.

(** A resource the destroy check looks at and finds destroyed: a
    [zendesk_macro] outside the data sources whose id parses and whose fetch
    fails with a not-found error of the client library. *)
Definition destroyed (asZendeskError : error -> option Z) (client : MacroAPI)
    (entry : string * terraform.ResourceState) : Prop :=
  let '(k, r) := entry in
  String.prefix "data" k = true
  \/ terraform.Type_ r <> "zendesk_macro"
  \/ exists id err,
       ParseInt (terraform.Primary_ID r) = Ok id
       /\ GetMacro client id = Err err
       /\ asZendeskError err = Some 404.

(** ** Zero values in the bag *)

(** A looked-up value with the zero values of the schema's types (the empty
    string, 0, [false], the empty list) taken for an absent key. *)
Definition zeroed (o : option any) : option any :=
  match o with
  | Some (VString "") => None
  | Some (VInt 0) => None
  | Some (VBool false) => None
  | Some (VSlice []) => None
  | _ => o
  end.

(** The keys [marshalMacro] writes and [unmarshalMacro] reads. *)
Definition macroKeys : list string :=
  [ "url"; "title"; "description"; "position"; "restriction"; "active"; "actions" ].

(** A client whose remote system holds no macro: every fetch fails. *)
Definition gone : MacroAPI :=
  {| CreateMacro := fun _ => Err (ErrorString "RecordNotFound");
     GetMacro := fun _ => Err (ErrorString "RecordNotFound");
     UpdateMacro := fun _ _ => Err (ErrorString "RecordNotFound");
     DeleteMacro := fun _ => Some (ErrorString "RecordNotFound") |}.

(** The diagnostics a lifecycle function returns after its encode: one for
    a rejected write, none otherwise. *)
Definition ended (oe : option error) : list Diagnostic :=
  match oe with Some err => FromErr err | None => [] end.

(** The bag holds what an encode of [m] writes: each of the seven fields of
    [m] under its key, the actions as the [[]client.MacroAction] itself. *)
Definition written {D : Type} `{identifiableGetterSetter D} (d : D) (m : Macro) : Prop :=
  GetOk d "url" = Some (VString (URL m))
  /\ GetOk d "title" = Some (VString (Title m))
  /\ GetOk d "description" = Some (VString (Description m))
  /\ GetOk d "position" = Some (VInt (Position m))
  /\ GetOk d "restriction" = Some (VString (Restriction m))
  /\ GetOk d "active" = Some (VBool (Active m))
  /\ GetOk d "actions" = Some (VMacroActions (Actions m)).

(** A bag that holds zero values under three keys: an empty title, position
    0 and [active = false]. *)
Definition zeroBag : identifiableMapGetterSetter :=
  {| id := "5";
     mapGetterSetter :=
       <["title" := VString ""]> (<["position" := VInt 0]> (<["active" := VBool false]> ∅)) |}.

(** A bag whose [position] holds a string: not of the declared shape. *)
Definition illTypedBag : identifiableMapGetterSetter :=
  {| id := "5"; mapGetterSetter := <["position" := VString "first"]> ∅ |}.

(** The state of a destroy check: a macro resource and a data source. *)
Definition testResources : list (string * terraform.ResourceState) :=
  [ ("zendesk_macro.example",
      {| terraform.Type_ := "zendesk_macro"; terraform.Primary_ID := "1234" |});
    ("data.zendesk_macro.other",
      {| terraform.Type_ := "zendesk_macro"; terraform.Primary_ID := "not-a-number" |}) ].

(** Every error is a not-found error of the client library. *)
Definition allNotFound (err : error) : option Z := Some 404.

(** A decimal digit, ['0'] to ['9']. *)
Definition isDecimal (c : ascii) : bool :=
  (48 <=? strconv.byte_of c) && (strconv.byte_of c <=? 57).

(** An identifier without its optional sign. *)
Definition unsigned (s : string) : string :=
  match s with
  | String c rest => if Ascii.eqb c "+" || Ascii.eqb c "-" then rest else s
  | EmptyString => s
  end.

(** * Properties *)

Section strconv_facts.
Import strconv.

Example FormatInt_777 : FormatInt 777 = "777"%string.
Proof. reflexivity. Qed.

Example FormatInt_min : FormatInt (- 2 ^ 63) = "-9223372036854775808"%string.
Proof. reflexivity. Qed.

Example ParseInt_abc : ParseInt "abc" = (0, Some ErrSyntax).
Proof. reflexivity. Qed.

Example ParseInt_empty : ParseInt "" = (0, Some ErrSyntax).
Proof. reflexivity. Qed.

Example ParseInt_plus : ParseInt "+0012" = (12, None).
Proof. reflexivity. Qed.

Example ParseInt_big : ParseInt "9223372036854775808" = (2 ^ 63 - 1, Some ErrRange).
Proof. reflexivity. Qed.

Example ParseInt_huge : ParseInt "99999999999999999999999" = (2 ^ 63 - 1, Some ErrRange).
Proof. reflexivity. Qed.

End strconv_facts.

(** ** Identifiers survive printing and parsing *)

Section strconv_roundtrip.
Import strconv.

Lemma small_cases (d : Z) :
  0 <= d < 10 ->
  d = 0 \/ d = 1 \/ d = 2 \/ d = 3 \/ d = 4 \/ d = 5 \/ d = 6 \/ d = 7 \/ d = 8 \/ d = 9.
Proof. lia. Qed.

Ltac each_digit d H :=
  destruct (small_cases d H) as [-> | [-> | [-> | [-> | [-> | [-> | [-> | [-> | [-> | ->]]]]]]]]].

Lemma digit_char_of (d : Z) :
  0 <= d < 10 -> digit (byte_of (char_of (48 + d))) = Some d.
Proof. intros H. each_digit d H; reflexivity. Qed.

Lemma char_of_digit_not_sign (d : Z) :
  0 <= d < 10 ->
  Ascii.eqb (char_of (48 + d)) "+" = false /\ Ascii.eqb (char_of (48 + d)) "-" = false.
Proof. intros H. each_digit d H; split; reflexivity. Qed.

Lemma parseUintLoop_digit (n d : Z) (rest : string) :
  0 <= d < 10 -> 0 <= n -> n * 10 + d <= maxUint64 ->
  parseUintLoop n (String (char_of (48 + d)) rest) = parseUintLoop (n * 10 + d) rest.
Proof.
  intros Hd Hn Hmax. cbn [parseUintLoop]. rewrite (digit_char_of d Hd).
  assert (Hcut : n <= maxUint64 / 10) by (apply Z.div_le_lower_bound; lia).
  destruct (Z.leb_spec 10 d); [lia |].
  destruct (Z.leb_spec (maxUint64 / 10 + 1) n); [lia |].
  cbv zeta. destruct (Z.ltb_spec maxUint64 (n * 10 + d)); [lia | reflexivity].
Qed.

Lemma parse_fmtDigits (fuel : nat) :
  forall (u : Z) (acc : string),
    0 <= u <= maxUint64 -> u < 2 ^ (Z.of_nat fuel + 1) ->
    parseUintLoop 0 (fmtDigits fuel u acc) = parseUintLoop u acc.
Proof.
  induction fuel as [| fuel IH]; intros u acc Hu Hlt.
  - cbn [fmtDigits]. change (2 ^ (Z.of_nat 0 + 1)) with 2 in Hlt.
    rewrite parseUintLoop_digit by lia. f_equal.
  - cbn [fmtDigits]. destruct (Z.leb_spec 10 u) as [Hge | Hsmall].
    + cbv zeta.
      assert (Hq : 0 <= u / 10) by (apply Z.div_pos; lia).
      assert (Hmul : u / 10 * 10 <= u) by (pose proof (Z.mul_div_le u 10); lia).
      assert (Hrem : u - u / 10 * 10 < 10).
      { pose proof (Z.mod_pos_bound u 10). pose proof (Z.div_mod u 10). lia. }
      rewrite IH.
      * replace (48 + u - u / 10 * 10) with (48 + (u - u / 10 * 10)) by lia.
        rewrite parseUintLoop_digit by lia. f_equal. lia.
      * lia.
      * replace (Z.of_nat (S fuel) + 1) with (Z.succ (Z.of_nat fuel + 1)) in Hlt by lia.
        rewrite Z.pow_succ_r in Hlt by lia. lia.
    + rewrite parseUintLoop_digit by lia. f_equal.
Qed.

Lemma fmtDigits_head (fuel : nat) :
  forall (u : Z) (acc : string),
    0 <= u -> u < 2 ^ (Z.of_nat fuel + 1) ->
    exists d rest, 0 <= d < 10 /\ fmtDigits fuel u acc = String (char_of (48 + d)) rest.
Proof.
  induction fuel as [| fuel IH]; intros u acc Hu Hlt.
  - change (2 ^ (Z.of_nat 0 + 1)) with 2 in Hlt.
    exists u, acc. split; [lia | reflexivity].
  - cbn [fmtDigits]. destruct (Z.leb_spec 10 u) as [Hge | Hsmall].
    + cbv zeta. apply IH.
      * apply Z.div_pos; lia.
      * replace (Z.of_nat (S fuel) + 1) with (Z.succ (Z.of_nat fuel + 1)) in Hlt by lia.
        rewrite Z.pow_succ_r in Hlt by lia.
        pose proof (Z.mul_div_le u 10). lia.
    + exists u, acc. split; [lia | reflexivity].
Qed.

Lemma log2_fuel (u : Z) : 0 <= u -> u < 2 ^ (Z.of_nat (Z.to_nat (Z.log2 u)) + 1).
Proof.
  intros Hu. rewrite Z2Nat.id by apply Z.log2_nonneg.
  destruct (Z.eq_dec u 0) as [-> | Hne]; [reflexivity |].
  pose proof (Z.log2_spec u). replace (Z.log2 u + 1) with (Z.succ (Z.log2 u)) by lia. lia.
Qed.

Lemma ParseUint_digits (u : Z) :
  0 <= u <= maxUint64 ->
  ParseUint (fmtDigits (Z.to_nat (Z.log2 u)) u EmptyString) = (u, None).
Proof.
  intros Hu.
  destruct (fmtDigits_head (Z.to_nat (Z.log2 u)) u EmptyString) as (d & rest & Hd & Heq);
    [lia | apply log2_fuel; lia |].
  unfold ParseUint. rewrite Heq, <- Heq.
  rewrite parse_fmtDigits; [reflexivity | lia | apply log2_fuel; lia].
Qed.

Lemma ParseInt_FormatInt (n : Z) : int64 n -> ParseInt (FormatInt n) = (n, None).
Proof.
  unfold int64. intros Hn. unfold FormatInt.
  assert (Hmax : maxUint64 = 2 ^ 64 - 1) by reflexivity.
  destruct (Z.ltb_spec n 0) as [Hneg | Hpos]; cbv zeta.
  - cbn [ParseInt]. change (Ascii.eqb "-" "+") with false.
    change (Ascii.eqb "-" "-") with true. cbv iota beta.
    rewrite ParseUint_digits by lia.
    destruct (Z.leb_spec (2 ^ 63) (- n)); cbn [negb andb].
    + destruct (Z.ltb_spec (2 ^ 63) (- n)); [lia |]. f_equal. lia.
    + destruct (Z.ltb_spec (2 ^ 63) (- n)); [lia |]. f_equal. lia.
  - destruct (fmtDigits_head (Z.to_nat (Z.log2 n)) n EmptyString) as (d & rest & Hd & Heq);
      [lia | apply log2_fuel; lia |].
    pose proof (ParseUint_digits n ltac:(lia)) as HP.
    rewrite Heq in HP |- *. cbn [ParseInt].
    destruct (char_of_digit_not_sign d Hd) as [-> ->].
    rewrite HP. cbn [negb andb].
    destruct (Z.leb_spec (2 ^ 63) n); [lia | reflexivity].
Qed.

End strconv_roundtrip.

(** ** The repository's tests, replayed on the embedding *)

Section tests.

Example TestReadMacro :
  exists r,
    readMacro (emptyBag "1234") (scripted unused (Ok testField) unused None) = Returns r
    /\ diags r = []
    /\ GetOk (data r) "url" = Some (VString (URL testField))
    /\ GetOk (data r) "title" = Some (VString (Title testField))
    /\ remote r = [CallGetMacro 1234].
Proof. eexists. repeat split; reflexivity. Qed.

Example TestDeleteMacro :
  deleteMacro (emptyBag "12345") (scripted unused unused unused None)
  = Returns {| diags := []; data := emptyBag "12345"; remote := [CallDeleteMacro 12345] |}.
Proof. reflexivity. Qed.

Example TestUpdateMacro :
  exists r,
    updateMacro (emptyBag "12345") (scripted unused unused (Ok zeroMacro) None) = Returns r
    /\ diags r = []
    /\ remote r = [CallUpdateMacro 12345 (withID zeroMacro 12345)].
Proof. eexists. repeat split; reflexivity. Qed.

Example TestCreateMacro :
  exists r,
    createMacro (emptyBag "") (scripted (Ok (withID zeroMacro 12345)) unused unused None)
    = Returns r
    /\ diags r = [] /\ Id (data r) = "12345".
Proof. eexists. repeat split; reflexivity. Qed.

Example TestMarshalMacro :
  unmarshalMacro testBag
  = Returns (Ok {| ID := 1234;
                   URL := "https://example.zendesk.com/api/v2/macros/360011737434.json";
                   Title := "title"; Description := "description"; Position := 12;
                   Restriction := "restriction"; Active := true;
                   Actions := [ {| Field := "status"; Value := "open" |} ] |}).
Proof. reflexivity. Qed.

Example TestMarshalMacro_conforms : conforms testBag = true.
Proof. reflexivity. Qed.

End tests.

(** ** What a bag of the declared shape decodes to *)

Section decode_facts.
Context {D : Type} `{!identifiableGetterSetter D}.

Lemma conforms_inv (d : D) :
  conforms d = true ->
  let scalar t k :=
    match GetOk d k with Some v => scalarHasType t v | None => true end = true in
  scalar schema.TypeString "url" /\ scalar schema.TypeString "title"
  /\ scalar schema.TypeString "description" /\ scalar schema.TypeInt "position"
  /\ scalar schema.TypeString "restriction" /\ scalar schema.TypeBool "active"
  /\ match GetOk d "actions" with
     | Some (VSlice l) => forallb (recordHasType actionResource) l
     | Some _ => false
     | None => true
     end = true.
Proof.
  unfold conforms. cbn [forallb resourceZendeskMacro]. intros H.
  repeat (apply andb_prop in H; destruct H as [? H]).
  repeat split; assumption.
Qed.

Lemma scalar_cases (t : schema.ValueType) (o : option any) :
  match o with Some v => scalarHasType t v | None => true end = true ->
  o = None
  \/ match t with
     | schema.TypeString => exists s, o = Some (VString s)
     | schema.TypeInt => exists n, o = Some (VInt n)
     | schema.TypeBool => exists b, o = Some (VBool b)
     | schema.TypeList => False
     end.
Proof.
  destruct o as [v |]; [| by left]. intros H. right.
  destruct t, v; try discriminate H; eauto.
Qed.

Lemma appendActions_records (l : list any) :
  forall acts,
    forallb (recordHasType actionResource) l = true ->
    appendActions acts l = Returns (acts ++ map actionOf l).
Proof.
  induction l as [| v l IH]; intros acts H.
  - cbn. by rewrite app_nil_r.
  - cbn [forallb] in H. apply andb_prop in H as [Hv Hl].
    destruct v as [| | | | m |]; try discriminate Hv.
    cbn in Hv. unfold scalarHasType in Hv.
    cbn [appendActions assertMap exec_bind]. unfold indexString.
    destruct (m !! "field") as [[] |] eqn:Ef; try discriminate Hv.
    destruct (m !! "value") as [[] |] eqn:Ev; try discriminate Hv.
    cbn [assertString exec_bind]. rewrite IH by assumption.
    cbn [map actionOf]. rewrite Ef, Ev. by rewrite <- app_assoc.
Qed.

(** A bag of the declared shape never trips a type assertion. *)
Lemma unmarshalMacro_conforms (d : D) :
  conforms d = true ->
  unmarshalMacro d
  = Returns (match decodedId d with
             | Err e => Err e
             | Ok n => Ok (decoded d n)
             end).
Proof.
  intros H. apply conforms_inv in H.
  destruct H as (Hurl & Htitle & Hdesc & Hpos & Hres & Hact & Hacts).
  assert (Hslice : GetOk d "actions" = None
                   \/ exists l, GetOk d "actions" = Some (VSlice l)
                                /\ forallb (recordHasType actionResource) l = true).
  { destruct (GetOk d "actions") as [[] |]; try discriminate Hacts; eauto. }
  assert (Hfields : forall n,
    (do m <- readField d "url" assertString withURL (withID zeroMacro n);
     do m <- readField d "title" assertString withTitle m;
     do m <- readField d "description" assertString withDescription m;
     do m <- readField d "position" assertInt withPosition m;
     do m <- readField d "active" assertBool withActive m;
     do m <- readField d "restriction" assertString withRestriction m;
     do m <- match GetOk d "actions" with
             | Some v =>
                 do actions <- assertSlice v;
                 do acts <- appendActions (Actions m) actions;
                 Returns (withActions m acts)
             | None => Returns m
             end;
     Returns (Ok m))
    = Returns (Ok (decoded d n))).
  { intros n. unfold readField, decoded, stringAt, intAt, boolAt, actionsAt.
    destruct (scalar_cases _ _ Hurl) as [-> | [? ->]];
      destruct (scalar_cases _ _ Htitle) as [-> | [? ->]];
      destruct (scalar_cases _ _ Hdesc) as [-> | [? ->]];
      destruct (scalar_cases _ _ Hpos) as [-> | [? ->]];
      destruct (scalar_cases _ _ Hact) as [-> | [? ->]];
      destruct (scalar_cases _ _ Hres) as [-> | [? ->]];
      destruct Hslice as [-> | (l & -> & Hl)];
      cbn [exec_bind assertString assertInt assertBool assertSlice];
      rewrite ?appendActions_records by assumption; reflexivity. }
  unfold unmarshalMacro, decodedId.
  destruct (String.eqb (Id d) "").
  - change zeroMacro with (withID zeroMacro 0). apply Hfields.
  - destruct (ParseInt (Id d)) as [n | e]; [apply Hfields | reflexivity].
Qed.

End decode_facts.

(** ** What a decode that returns tells about the bag *)

Section decode_inversion.
Context {D : Type} `{!identifiableGetterSetter D}.

Lemma exec_bind_Returns {A B : Type} (x : exec A) (k : A -> exec B) (b : B) :
  exec_bind x k = Returns b -> exists a, x = Returns a /\ k a = Returns b.
Proof. destruct x as [a |]; [eauto | discriminate]. Qed.

Lemma readField_inv {T : Type} d k (assert : any -> exec T) set m m'
    (t : schema.ValueType) :
  (forall v x, assert v = Returns x -> scalarHasType t v = true) ->
  readField d k assert set m = Returns m' ->
  match GetOk d k with Some v => scalarHasType t v | None => true end = true.
Proof.
  intros Hassert. unfold readField. destruct (GetOk d k) as [v |]; [| reflexivity].
  intros H. apply exec_bind_Returns in H as (x & Hx & _). eauto.
Qed.

Lemma assertString_inv v x :
  assertString v = Returns x -> scalarHasType schema.TypeString v = true.
Proof. by destruct v. Qed.

Lemma assertInt_inv v x : assertInt v = Returns x -> scalarHasType schema.TypeInt v = true.
Proof. by destruct v. Qed.

Lemma assertBool_inv v x : assertBool v = Returns x -> scalarHasType schema.TypeBool v = true.
Proof. by destruct v. Qed.

Lemma indexString_inv m k x :
  indexString m k = Returns x -> m !! k = Some (VString x).
Proof.
  unfold indexString. destruct (m !! k) as [[] |]; cbn; congruence.
Qed.

Lemma appendActions_inv (l : list any) :
  forall acts r,
    appendActions acts l = Returns r -> forallb (recordHasType actionResource) l = true.
Proof.
  induction l as [| v l IH]; intros acts r H; [reflexivity |].
  cbn [appendActions] in H.
  apply exec_bind_Returns in H as (mp & Hmp & H).
  apply exec_bind_Returns in H as (f & Hf & H).
  apply exec_bind_Returns in H as (x & Hx & H).
  destruct v; try discriminate Hmp. injection Hmp as ->.
  apply indexString_inv in Hf, Hx.
  cbn [forallb recordHasType actionResource]. rewrite Hf, Hx. cbn.
  by apply IH in H.
Qed.

(** A decode that returns was given a bag of the declared shape, unless the
    identifier already failed to parse. *)
Lemma unmarshalMacro_shape (d : D) (r : result Macro) :
  unmarshalMacro d = Returns r ->
  conforms d = true \/ exists e, decodedId d = Err e.
Proof.
  unfold unmarshalMacro, decodedId. intros H.
  assert (Hchain : forall m0,
    (do m <- readField d "url" assertString withURL m0;
     do m <- readField d "title" assertString withTitle m;
     do m <- readField d "description" assertString withDescription m;
     do m <- readField d "position" assertInt withPosition m;
     do m <- readField d "active" assertBool withActive m;
     do m <- readField d "restriction" assertString withRestriction m;
     do m <- match GetOk d "actions" with
             | Some v =>
                 do actions <- assertSlice v;
                 do acts <- appendActions (Actions m) actions;
                 Returns (withActions m acts)
             | None => Returns m
             end;
     Returns (Ok m)) = Returns r -> conforms d = true).
  { clear H. intros m0 H.
    apply exec_bind_Returns in H as (m1 & H1 & H).
    apply exec_bind_Returns in H as (m2 & H2 & H).
    apply exec_bind_Returns in H as (m3 & H3 & H).
    apply exec_bind_Returns in H as (m4 & H4 & H).
    apply exec_bind_Returns in H as (m5 & H5 & H).
    apply exec_bind_Returns in H as (m6 & H6 & H).
    apply exec_bind_Returns in H as (m7 & H7 & _).
    apply (readField_inv _ _ _ _ _ _ schema.TypeString assertString_inv) in H1, H2, H3, H6.
    apply (readField_inv _ _ _ _ _ _ schema.TypeInt assertInt_inv) in H4.
    apply (readField_inv _ _ _ _ _ _ schema.TypeBool assertBool_inv) in H5.
    assert (Hacts : match GetOk d "actions" with
                    | Some v =>
                        hasType {| schema.Description := "";
         schema.Type_ := schema.TypeList;
                                   schema.Required := true; schema.Optional := false;
                                   schema.Computed := false; schema.Default := None;
                                   schema.Elem := actionResource |} v
                    | None => true
                    end = true).
    { destruct (GetOk d "actions") as [v |]; [| reflexivity].
      apply exec_bind_Returns in H7 as (l & Hl & H7).
      apply exec_bind_Returns in H7 as (acts & Hacts & _).
      destruct v; try discriminate Hl. injection Hl as ->.
      cbn. by apply appendActions_inv in Hacts. }
    unfold conforms. cbn [forallb resourceZendeskMacro hasType schema.Type_ schema.Elem] in *.
    rewrite H1, H2, H3, H4, H5, H6, Hacts. reflexivity. }
  destruct (String.eqb (Id d) "").
  - left. by apply (Hchain zeroMacro).
  - destruct (ParseInt (Id d)) as [n | e]; [left | right; eauto].
    by apply (Hchain (withID zeroMacro n)).
Qed.

Lemma unmarshalMacro_inv (d : D) (r : result Macro) :
  unmarshalMacro d = Returns r ->
  r = match decodedId d with
      | Err e => Err e
      | Ok n => Ok (decoded d n)
      end.
Proof.
  intros H. destruct (unmarshalMacro_shape d r H) as [Hc | [e He]].
  - rewrite (unmarshalMacro_conforms d Hc) in H. by injection H.
  - rewrite He. revert H. unfold unmarshalMacro. unfold decodedId in He.
    destruct (String.eqb (Id d) ""); [discriminate He |].
    destruct (ParseInt (Id d)); [discriminate He |].
    injection He as <-. intros H. by injection H.
Qed.

Lemma decodedId_cases (d : D) :
  (Id d = "" /\ decodedId d = Ok 0)
  \/ (Id d <> "" /\ exists n, ParseInt (Id d) = Ok n /\ decodedId d = Ok n)
  \/ (Id d <> "" /\ exists e, ParseInt (Id d) = Err e
                             /\ decodedId d = Err (ErrorfParseId (Id d) e)).
Proof.
  unfold decodedId. destruct (String.eqb_spec (Id d) "") as [E | NE]; [by left | right].
  destruct (ParseInt (Id d)) as [n | e]; [left | right]; eauto.
Qed.

Lemma ParseInt_empty_fails : ParseInt "" = Err (NumError "ParseInt" "" strconv.ErrSyntax).
Proof. reflexivity. Qed.

End decode_inversion.

(** ** What an encode writes *)

#[export] Instance mapBag_slot : IdentifierSlot identifiableMapGetterSetter.
Proof. split; reflexivity. Qed.

#[export] Instance mapBag_stores : StoresValues identifiableMapGetterSetter.
Proof.
  split. intros d k k' v _. cbn.
  destruct (String.eqb_spec k k') as [-> | NE].
  - apply lookup_insert_eq.
  - by apply lookup_insert_ne.
Qed.

Section encode_facts.
Context {D : Type} `{!identifiableGetterSetter D}.

Lemma marshalMacro_eq (field : Macro) (d : D) :
  marshalMacro field d
  = setSchemaFields d
      [ ("url", VString (URL field));
        ("title", VString (Title field));
        ("description", VString (Description field));
        ("position", VInt (Position field));
        ("restriction", VString (Restriction field));
        ("active", VBool (Active field));
        ("actions", VMacroActions (Actions field)) ].
Proof. unfold marshalMacro. by destruct (setSchemaFields d _) as [d' [e |]]. Qed.

Lemma setSchemaFields_Id `{!IdentifierSlot D} (fields : list (string * any)) :
  forall d : D, Id (fst (setSchemaFields d fields)) = Id d.
Proof.
  induction fields as [| [k v] rest IH]; intros d; [reflexivity |].
  cbn [setSchemaFields]. pose proof (Id_Set d k v) as Hset.
  destruct (Set_ d k v) as [d' [e |]]; cbn [fst] in *; [assumption |].
  by rewrite IH.
Qed.

Lemma marshalMacro_Id `{!IdentifierSlot D} (field : Macro) (d : D) :
  Id (fst (marshalMacro field d)) = Id d.
Proof. rewrite marshalMacro_eq. apply setSchemaFields_Id. Qed.

Lemma setSchemaFields_GetOk `{!StoresValues D} (fields : list (string * any)) :
  forall (d d' : D),
    setSchemaFields d fields = (d', None) ->
    forall k,
      GetOk d' k = match lastWrite k fields with
                   | Some v => Some v
                   | None => GetOk d k
                   end.
Proof.
  induction fields as [| [k0 v] rest IH]; intros d d' H k.
  - injection H as <-. reflexivity.
  - cbn [setSchemaFields lastWrite] in *.
    pose proof (GetOk_Set d k0 k v) as Hset.
    destruct (Set_ d k0 v) as [d1 [e |]]; [discriminate H |].
    cbn [fst snd] in Hset. rewrite (IH _ _ H k), (Hset eq_refl).
    by destruct (lastWrite k rest), (String.eqb k0 k).
Qed.

(** The bag an accepted encode leaves. *)
Lemma marshalMacro_written `{!StoresValues D} (field : Macro) (d d' : D) :
  marshalMacro field d = (d', None) ->
  GetOk d' "url" = Some (VString (URL field))
  /\ GetOk d' "title" = Some (VString (Title field))
  /\ GetOk d' "description" = Some (VString (Description field))
  /\ GetOk d' "position" = Some (VInt (Position field))
  /\ GetOk d' "restriction" = Some (VString (Restriction field))
  /\ GetOk d' "active" = Some (VBool (Active field))
  /\ GetOk d' "actions" = Some (VMacroActions (Actions field)).
Proof.
  rewrite marshalMacro_eq. intros H.
  repeat split; by rewrite (setSchemaFields_GetOk _ _ _ H).
Qed.

End encode_facts.

Lemma FormatInt_nonempty (n : Z) : String.eqb (strconv.FormatInt n) "" = false.
Proof.
  unfold strconv.FormatInt. destruct (n <? 0) eqn:E; cbv zeta; [reflexivity |].
  apply Z.ltb_ge in E.
  destruct (fmtDigits_head (Z.to_nat (Z.log2 n)) n EmptyString) as (c & rest & _ & ->);
    [lia | apply log2_fuel; lia | reflexivity].
Qed.

Lemma ParseInt_FormatInt_Ok (n : Z) : int64 n -> ParseInt (strconv.FormatInt n) = Ok n.
Proof. intros H. unfold ParseInt. by rewrite ParseInt_FormatInt. Qed.

(** * The claims *)

(** ** C1: decoding what was encoded *)

(** C1 (fails on the code).  The claim asks that decoding the bag that
    [marshalMacro] wrote for [m], with the identifier slot holding the decimal
    string of [m]'s id, gives [m] back.  [marshalMacro] hands the actions to
    the bag as a [[]client.MacroAction] and [unmarshalMacro] asserts a
    [[]interface{}] of [map[string]interface{}]: on a bag that stores what it
    is given, such as the map of the repository's tests, the decode of an
    accepted encode panics on that type assertion for every macro, so no Macro
    comes back at all. *)
Theorem C1_decode_of_encode_panics
    {D : Type} `{!identifiableGetterSetter D} `{!IdentifierSlot D} `{!StoresValues D}
    (m : Macro) (d d' : D) :
  int64 (ID m) ->
  marshalMacro m (SetId d (strconv.FormatInt (ID m))) = (d', None) ->
  unmarshalMacro d' = Panics.
Proof.
  intros Hid Henc.
  assert (HId : Id d' = strconv.FormatInt (ID m)).
  { pose proof (marshalMacro_Id m (SetId d (strconv.FormatInt (ID m)))) as HId.
    rewrite Henc in HId. cbn [fst] in HId. by rewrite HId, Id_SetId. }
  destruct (marshalMacro_written m _ d' Henc)
    as (Hurl & Htitle & Hdesc & Hpos & Hres & Hact & Hacts).
  unfold unmarshalMacro, readField.
  rewrite HId, FormatInt_nonempty, (ParseInt_FormatInt_Ok _ Hid).
  rewrite Hurl, Htitle, Hdesc, Hpos, Hres, Hact, Hacts.
  reflexivity.
Qed.

Lemma C1_decode_of_encode_panics_witness :
  int64 (ID testField)
  /\ marshalMacro testField (SetId (emptyBag "") (strconv.FormatInt (ID testField)))
     = (fst (marshalMacro testField (emptyBag "1234")), None)
  /\ unmarshalMacro (fst (marshalMacro testField (emptyBag "1234"))) = Panics.
Proof.
  assert (H : int64 (ID testField)) by (unfold int64; cbn; lia).
  split; [exact H |]. split; [reflexivity |].
  exact (C1_decode_of_encode_panics testField (emptyBag "") _ H eq_refl).
Defined.

(** The same macro with its actions written in the representation the decode
    reads, a list of [{field, value}] records, does decode to itself: only the
    representation of the actions stands between [marshalMacro] and the round
    trip. *)
Lemma unmarshalMacro_of_records
    {D : Type} `{!identifiableGetterSetter D} `{!IdentifierSlot D} `{!StoresValues D}
    (m : Macro) (d d' d2 : D) :
  int64 (ID m) ->
  marshalMacro m (SetId d (strconv.FormatInt (ID m))) = (d', None) ->
  Set_ d' "actions" (VSlice (map actionRecord (Actions m))) = (d2, None) ->
  unmarshalMacro d2 = Returns (Ok m).
Proof.
  intros Hid Henc Hset.
  assert (HId : Id d2 = strconv.FormatInt (ID m)).
  { pose proof (marshalMacro_Id m (SetId d (strconv.FormatInt (ID m)))) as HId.
    rewrite Henc in HId. cbn [fst] in HId.
    pose proof (Id_Set d' "actions" (VSlice (map actionRecord (Actions m)))) as HId2.
    rewrite Hset in HId2. cbn [fst] in HId2. by rewrite HId2, HId, Id_SetId. }
  destruct (marshalMacro_written m _ d' Henc)
    as (Hurl & Htitle & Hdesc & Hpos & Hres & Hact & _).
  assert (Hget : forall k,
             GetOk d2 k = if String.eqb "actions" k
                          then Some (VSlice (map actionRecord (Actions m)))
                          else GetOk d' k).
  { intros k. pose proof (GetOk_Set d' "actions" k
                            (VSlice (map actionRecord (Actions m)))) as Hk.
    rewrite Hset in Hk. by apply Hk. }
  assert (Hrecs : forall l : list MacroAction,
             forallb (recordHasType actionResource) (map actionRecord l) = true
             /\ map actionOf (map actionRecord l) = l).
  { induction l as [| [f v] l [IH1 IH2]]; [done |].
    cbn [map forallb]. rewrite IH1, IH2. done. }
  rewrite unmarshalMacro_conforms.
  - unfold decodedId. rewrite HId, FormatInt_nonempty, (ParseInt_FormatInt_Ok _ Hid).
    unfold decoded, stringAt, intAt, boolAt, actionsAt.
    rewrite !Hget. cbn [String.eqb Ascii.eqb Bool.eqb].
    rewrite Hurl, Htitle, Hdesc, Hpos, Hres, Hact.
    rewrite (proj2 (Hrecs _)). by destruct m.
  - unfold conforms. cbn [forallb resourceZendeskMacro].
    rewrite !Hget. cbn [String.eqb Ascii.eqb Bool.eqb].
    rewrite Hurl, Htitle, Hdesc, Hpos, Hres, Hact.
    cbn. by rewrite (proj1 (Hrecs _)).
Qed.

(** ** C2: the default of [active] *)

(** C2 as stated fails: the empty bag holds no [active] key and decodes to a
    Macro whose [Active] is [false]. *)
Lemma C2_counterexample :
  GetOk (emptyBag "") "active" = None
  /\ unmarshalMacro (emptyBag "") = Returns (Ok zeroMacro)
  /\ Active zeroMacro <> true.
Proof. split; [reflexivity |]. split; [reflexivity | discriminate]. Qed.

(** C2 (amended).  When the key [active] is absent from the bag, every Macro
    [unmarshalMacro] returns has [Active = false], Go's zero value, although
    the schema declares the default [true]; [Active] is [true] only when the
    bag itself holds [active = true] (the host fills the default in before the
    call).  On a bag of the declared shape whose identifier is empty or parses
    the decode does return a Macro. *)
Theorem C2_absent_active_decodes_false
    {D : Type} `{!identifiableGetterSetter D} (d : D) :
  (forall m, unmarshalMacro d = Returns (Ok m) ->
             (GetOk d "active" = None -> Active m = false)
             /\ (forall b, GetOk d "active" = Some (VBool b) -> Active m = b))
  /\ (conforms d = true ->
      forall n, decodedId d = Ok n -> exists m, unmarshalMacro d = Returns (Ok m))
  /\ (schema.Default <$> schemaOf resourceZendeskMacro "active") = Some (Some (VBool true)).
Proof.
  split; [| split; [| reflexivity]].
  - intros m Hm. apply unmarshalMacro_inv in Hm.
    destruct (decodedId d) as [n | e]; [| discriminate Hm].
    injection Hm as ->. cbn [Active decoded]. unfold boolAt.
    split; [intros -> | intros b ->]; reflexivity.
  - intros Hc n Hn. exists (decoded d n).
    by rewrite (unmarshalMacro_conforms d Hc), Hn.
Qed.

Lemma C2_absent_active_decodes_false_witness :
  unmarshalMacro (emptyBag "1234") = Returns (Ok (withID zeroMacro 1234))
  /\ GetOk (emptyBag "1234") "active" = None
  /\ Active (withID zeroMacro 1234) = false.
Proof.
  split; [reflexivity |]. split; [reflexivity |].
  exact (proj1 (proj1 (C2_absent_active_decodes_false (emptyBag "1234"))
                  (withID zeroMacro 1234) eq_refl) eq_refl).
Defined.

(** ** C3: the id sent on create *)

(** C3 as stated fails: with ["42"] in the identifier slot, [createMacro]
    sends a Macro whose id is 42, the integer parsed from the slot. *)
Lemma C3_counterexample :
  exists r,
    createMacro (emptyBag "42") echo = Returns r
    /\ remote r = [CallCreateMacro (withID zeroMacro 42)]
    /\ ParseInt (Id (emptyBag "42")) = Ok (ID (withID zeroMacro 42))
    /\ ID (withID zeroMacro 42) <> 0.
Proof.
  eexists. split; [reflexivity |]. split; [reflexivity |].
  split; [reflexivity | discriminate].
Qed.

(** C3 (amended).  The Macro [createMacro] passes to [CreateMacro] carries the
    id that [unmarshalMacro] decodes: 0 when the bag's identifier slot is
    empty, and the integer parsed from the slot when it is not. *)
Theorem C3_create_sends_decoded_id
    {D : Type} `{!identifiableGetterSetter D}
    (d : D) (zd : MacroAPI) (r : run D) (m : Macro) :
  createMacro d zd = Returns r ->
  In (CallCreateMacro m) (remote r) ->
  (Id d = "" /\ ID m = 0) \/ (Id d <> "" /\ ParseInt (Id d) = Ok (ID m)).
Proof.
  unfold createMacro. intros H Hin.
  apply exec_bind_Returns in H as (r0 & Hdec & H).
  apply unmarshalMacro_inv in Hdec.
  assert (Hsent : exists n, decodedId d = Ok n /\ m = decoded d n).
  { destruct (decodedId d) as [n | e]; subst r0.
    - exists n. split; [reflexivity |].
      destruct (CreateMacro zd (decoded d n)) as [m' | e].
      + destruct (marshalMacro m' _) as [d2 [e |]]; injection H as <-;
          destruct Hin as [Hin | []]; by injection Hin.
      + injection H as <-. destruct Hin as [Hin | []]. by injection Hin.
    - injection H as <-. destruct Hin. }
  destruct Hsent as (n & Hn & ->). cbn [ID decoded].
  destruct (decodedId_cases d) as [[E Hd] | [(NE & k & Hk & Hd) | (NE & e & _ & Hd)]];
    rewrite Hd in Hn; try discriminate Hn; injection Hn as <-; [by left | by right].
Qed.

Lemma C3_create_sends_decoded_id_witness :
  createMacro (emptyBag "42") echo
  = Returns {| diags := [];
               data := fst (marshalMacro (withID zeroMacro 42) (emptyBag "42"));
               remote := [CallCreateMacro (withID zeroMacro 42)] |}
  /\ In (CallCreateMacro (withID zeroMacro 42)) [CallCreateMacro (withID zeroMacro 42)]
  /\ ((Id (emptyBag "42") = "" /\ ID (withID zeroMacro 42) = 0)
      \/ (Id (emptyBag "42") <> ""
          /\ ParseInt (Id (emptyBag "42")) = Ok (ID (withID zeroMacro 42)))).
Proof.
  split; [reflexivity |]. split; [left; reflexivity |].
  exact (C3_create_sends_decoded_id (emptyBag "42") echo _ (withID zeroMacro 42)
           eq_refl (or_introl eq_refl)).
Defined.

(** ** C4: a malformed identifier *)



(** ** C5: a create the remote system refuses *)



(** ** C6: when the decode fails *)

(** C6 as stated fails: a bag whose identifier parses and whose [position]
    holds a string returns no Macro, the decode panics on the type assertion
    [v.(int)]; so does the bag an encode leaves on the map of the tests, whose
    [actions] hold a [[]client.MacroAction]. *)
Lemma C6_counterexample :
  ParseInt (Id illTypedBag) = Ok 5
  /\ unmarshalMacro illTypedBag = Panics
  /\ (forall m, unmarshalMacro illTypedBag <> Returns (Ok m))
  /\ ParseInt (Id (fst (marshalMacro testField (emptyBag "1234")))) = Ok 1234
  /\ unmarshalMacro (fst (marshalMacro testField (emptyBag "1234"))) = Panics.
Proof.
  split; [reflexivity |]. split; [reflexivity |].
  split; [intros m; discriminate |]. split; reflexivity.
Qed.

(** C6 (amended).  [unmarshalMacro] returns an error exactly when the bag's
    identifier slot is non-empty and does not parse as a base-10 64-bit integer
    (on every bag); on a bag whose fields have the types the schema declares
    and whose identifier is empty or parses it returns a Macro and no error.
    A field of another type is no error either: there the decode panics. *)
Theorem C6_decode_fails_only_on_identifier
    {D : Type} `{!identifiableGetterSetter D} (d : D) :
  ((exists e, unmarshalMacro d = Returns (Err e))
   <-> (Id d <> "" /\ exists e, ParseInt (Id d) = Err e))
  /\ (conforms d = true ->
      Id d = "" \/ (exists n, ParseInt (Id d) = Ok n) ->
      exists m, unmarshalMacro d = Returns (Ok m)).
Proof.
  split; [split |].
  - intros [e He]. apply unmarshalMacro_inv in He.
    destruct (decodedId_cases d) as [[E Hd] | [(NE & k & Hk & Hd) | (NE & e' & He' & Hd)]];
      rewrite Hd in He; try discriminate He. eauto.
  - intros (NE & e & He). exists (ErrorfParseId (Id d) e). unfold unmarshalMacro.
    destruct (String.eqb_spec (Id d) "") as [E | _]; [contradiction |].
    by rewrite He.
  - intros Hc Hid. rewrite (unmarshalMacro_conforms d Hc).
    destruct (decodedId_cases d) as [[E Hd] | [(NE & k & Hk & Hd) | (NE & e & He & Hd)]];
      rewrite Hd; eauto.
    destruct Hid as [E | [n Hn]]; [contradiction | congruence].
Qed.

Lemma C6_decode_fails_only_on_identifier_witness :
  ((exists e, unmarshalMacro testBag = Returns (Err e))
   <-> (Id testBag <> "" /\ exists e, ParseInt (Id testBag) = Err e))
  /\ conforms testBag = true
  /\ (Id testBag = "" \/ (exists n, ParseInt (Id testBag) = Ok n))
  /\ exists m, unmarshalMacro testBag = Returns (Ok m).
Proof.
  assert (Hid : Id testBag = "" \/ (exists n, ParseInt (Id testBag) = Ok n))
    by (right; exists 1234; reflexivity).
  destruct (C6_decode_fails_only_on_identifier testBag) as [Hiff Hret].
  split; [exact Hiff |]. split; [reflexivity |]. split; [exact Hid |].
  exact (Hret eq_refl Hid).
Defined.

(** ** C7: the identifier a create assigns *)

(** C7.  When the client's [CreateMacro] succeeds with a Macro of id [N] and
    [createMacro] returns no diagnostic, the bag's identifier slot holds the
    base-10 decimal string of [N], and parsing the slot as a base-10 64-bit
    integer gives [N] back. *)
Theorem C7_create_sets_identifier
    {D : Type} `{!identifiableGetterSetter D} `{!IdentifierSlot D}
    (d : D) (zd : MacroAPI) (N : Z) (r : run D) :
  int64 N ->
  (forall m, exists m', CreateMacro zd m = Ok m' /\ ID m' = N) ->
  createMacro d zd = Returns r ->
  diags r = [] ->
  Id (data r) = strconv.FormatInt N /\ ParseInt (Id (data r)) = Ok N.
Proof.
  intros HN Hcreate H Hdiags. unfold createMacro in H.
  apply exec_bind_Returns in H as (r0 & _ & H).
  destruct r0 as [m | e]; [| injection H as <-; discriminate Hdiags].
  destruct (Hcreate m) as (m' & Hm' & <-). rewrite Hm' in H.
  pose proof (marshalMacro_Id m' (SetId d (strconv.FormatInt (ID m')))) as HId.
  rewrite Id_SetId in HId.
  destruct (marshalMacro m' (SetId d (strconv.FormatInt (ID m')))) as [d2 [e |]];
    injection H as <-; [discriminate Hdiags |].
  cbn [data fst] in *. rewrite HId.
  split; [reflexivity | by apply ParseInt_FormatInt_Ok].
Qed.

Lemma C7_create_sets_identifier_witness :
  int64 777
  /\ (forall m, exists m', CreateMacro scenarioClient m = Ok m' /\ ID m' = 777)
  /\ createMacro scenarioBag scenarioClient = Returns scenarioRun
  /\ diags scenarioRun = []
  /\ Id (data scenarioRun) = "777"
  /\ ParseInt (Id (data scenarioRun)) = Ok 777.
Proof.
  assert (HN : int64 777) by (unfold int64; lia).
  assert (Hc : forall m, exists m', CreateMacro scenarioClient m = Ok m' /\ ID m' = 777)
    by (intros m; eexists; split; reflexivity).
  split; [exact HN |]. split; [exact Hc |].
  split; [reflexivity |]. split; [reflexivity |].
  exact (C7_create_sets_identifier scenarioBag scenarioClient 777 scenarioRun
           HN Hc eq_refl eq_refl).
Defined.

(** ** C8: delete leaves the bag alone *)

(** C8.  When the bag's identifier parses and the client's [DeleteMacro]
    returns no error, [deleteMacro] returns no diagnostic and the bag, fields
    and identifier slot alike, is what it was before the call. *)
Theorem C8_delete_does_not_mutate
    {D : Type} `{!identifiableGetterSetter D} (d : D) (zd : MacroAPI) (n : Z) :
  ParseInt (Id d) = Ok n ->
  DeleteMacro zd n = None ->
  exists r,
    deleteMacro d zd = Returns r
    /\ diags r = []
    /\ data r = d
    /\ (forall k, GetOk (data r) k = GetOk d k)
    /\ Id (data r) = Id d
    /\ remote r = [CallDeleteMacro n].
Proof.
  intros Hid Hdel. unfold deleteMacro. rewrite Hid, Hdel.
  eexists. repeat split.
Qed.

Lemma C8_delete_does_not_mutate_witness :
  ParseInt (Id testBag) = Ok 1234
  /\ DeleteMacro echo 1234 = None
  /\ exists r,
      deleteMacro testBag echo = Returns r
      /\ diags r = []
      /\ data r = testBag
      /\ (forall k, GetOk (data r) k = GetOk testBag k)
      /\ Id (data r) = Id testBag
      /\ remote r = [CallDeleteMacro 1234].
Proof.
  split; [reflexivity |]. split; [reflexivity |].
  exact (C8_delete_does_not_mutate testBag echo 1234 eq_refl eq_refl).
Defined.

(** ** C9: the order of the actions *)

Section action_order.

Lemma isRecordOf_actionOf (v : any) (a : MacroAction) :
  isRecordOf v a = true -> actionOf v = a.
Proof.
  destruct a as [f x]. destruct v as [| | | | m |]; try discriminate. cbn.
  destruct (m !! "field") as [[] |]; try discriminate.
  destruct (m !! "value") as [[] |]; try discriminate.
  intros H. apply andb_prop in H as [Hf Hx].
  apply String.eqb_eq in Hf, Hx. by subst.
Qed.

Lemma records_actionOf (l : list any) (recs : list MacroAction) :
  Forall2 (fun v a => isRecordOf v a = true) l recs -> map actionOf l = recs.
Proof.
  induction 1 as [| v a l recs Hv _ IH]; [reflexivity |].
  cbn [map]. by rewrite (isRecordOf_actionOf v a Hv), IH.
Qed.

End action_order.

(** C9.  When the bag's [actions] key holds a list of [{field, value}]
    records, every Macro [unmarshalMacro] returns has exactly those records
    as its actions, as many and in the bag's order; and on a bag of the
    declared shape whose identifier is empty or parses it does return one. *)
Theorem C9_action_order_preserved
    {D : Type} `{!identifiableGetterSetter D}
    (d : D) (l : list any) (recs : list MacroAction) :
  GetOk d "actions" = Some (VSlice l) ->
  Forall2 (fun v a => isRecordOf v a = true) l recs ->
  (forall m, unmarshalMacro d = Returns (Ok m) ->
             Actions m = recs /\ length (Actions m) = length l)
  /\ (conforms d = true ->
      forall n, decodedId d = Ok n ->
      exists m, unmarshalMacro d = Returns (Ok m) /\ Actions m = recs).
Proof.
  intros Hl Hrecs.
  assert (Hacts : forall n, Actions (decoded d n) = recs).
  { intros n. cbn. unfold actionsAt. rewrite Hl. by apply records_actionOf. }
  split.
  - intros m Hm. apply unmarshalMacro_inv in Hm.
    destruct (decodedId d) as [n | e]; [| discriminate Hm].
    injection Hm as ->. rewrite Hacts. split; [reflexivity |].
    symmetry. by eapply Forall2_length.
  - intros Hc n Hn. exists (decoded d n).
    rewrite (unmarshalMacro_conforms d Hc), Hn. split; [reflexivity | apply Hacts].
Qed.

Lemma C9_action_order_preserved_witness :
  GetOk orderedBag "actions"
  = Some (VSlice [ actionRecord {| Field := "status"; Value := "open" |};
                   actionRecord {| Field := "priority"; Value := "high" |} ])
  /\ Forall2 (fun v a => isRecordOf v a = true)
       [ actionRecord {| Field := "status"; Value := "open" |};
         actionRecord {| Field := "priority"; Value := "high" |} ]
       [ {| Field := "status"; Value := "open" |};
         {| Field := "priority"; Value := "high" |} ]
  /\ conforms orderedBag = true
  /\ decodedId orderedBag = Ok 0
  /\ exists m,
      unmarshalMacro orderedBag = Returns (Ok m)
      /\ Actions m = [ {| Field := "status"; Value := "open" |};
                       {| Field := "priority"; Value := "high" |} ].
Proof.
  assert (Hrecs : Forall2 (fun v a => isRecordOf v a = true)
                    [ actionRecord {| Field := "status"; Value := "open" |};
                      actionRecord {| Field := "priority"; Value := "high" |} ]
                    [ {| Field := "status"; Value := "open" |};
                      {| Field := "priority"; Value := "high" |} ])
    by (repeat constructor).
  split; [reflexivity |]. split; [exact Hrecs |].
  split; [reflexivity |]. split; [reflexivity |].
  exact (proj2 (C9_action_order_preserved orderedBag _ _ eq_refl Hrecs) eq_refl 0 eq_refl).
Defined.

(** ** C10: the two identifiers of an update *)

(** C10.  Whenever [updateMacro] reaches the remote [UpdateMacro] call, the
    id it passes is the [ID] of the Macro it passes: both were parsed from
    the same non-empty identifier slot. *)
Theorem C10_update_ids_agree
    {D : Type} `{!identifiableGetterSetter D}
    (d : D) (zd : MacroAPI) (r : run D) (n : Z) (m : Macro) :
  updateMacro d zd = Returns r ->
  In (CallUpdateMacro n m) (remote r) ->
  ID m = n /\ Id d <> "" /\ ParseInt (Id d) = Ok n.
Proof.
  unfold updateMacro. intros H Hin.
  apply exec_bind_Returns in H as (r0 & Hdec & H).
  apply unmarshalMacro_inv in Hdec.
  destruct (decodedId_cases d) as [[E Hd] | [(NE & k & Hk & Hd) | (NE & e & He & Hd)]];
    rewrite Hd in Hdec; subst r0.
  - rewrite E, ParseInt_empty_fails in H. injection H as <-. destruct Hin.
  - rewrite Hk in H.
    assert (Hcall : CallUpdateMacro n m = CallUpdateMacro k (decoded d k)).
    { destruct (UpdateMacro zd k (decoded d k)) as [m' | e].
      - destruct (marshalMacro m' d) as [d' [e |]]; injection H as <-;
          destruct Hin as [Hin | []]; by symmetry.
      - injection H as <-. destruct Hin as [Hin | []]. by symmetry. }
    injection Hcall as -> ->. by repeat split.
  - injection H as <-. destruct Hin.
Qed.

Lemma C10_update_ids_agree_witness :
  updateMacro (emptyBag "12345") echo
  = Returns {| diags := [];
               data := fst (marshalMacro (withID zeroMacro 12345) (emptyBag "12345"));
               remote := [CallUpdateMacro 12345 (withID zeroMacro 12345)] |}
  /\ In (CallUpdateMacro 12345 (withID zeroMacro 12345))
        [CallUpdateMacro 12345 (withID zeroMacro 12345)]
  /\ ID (withID zeroMacro 12345) = 12345
  /\ Id (emptyBag "12345") <> ""
  /\ ParseInt (Id (emptyBag "12345")) = Ok 12345.
Proof.
  split; [reflexivity |]. split; [left; reflexivity |].
  exact (C10_update_ids_agree (emptyBag "12345") echo _ 12345 (withID zeroMacro 12345)
           eq_refl (or_introl eq_refl)).
Defined.

(** * Further properties of the code *)

(** ** Identifiers: printing and parsing *)

Section identifier_facts.
Import strconv.

Lemma digit_nonneg (c d : Z) : 0 <= c -> digit c = Some d -> 0 <= d.
Proof.
  unfold digit. intros Hc.
  destruct (Z.leb_spec 48 c), (Z.leb_spec c 57); cbn [andb];
    try (intros Hdig; injection Hdig as <-; lia);
    destruct (Z.leb_spec 97 (lower c)), (Z.leb_spec (lower c) 122); cbn [andb];
    intros Hdig; try discriminate Hdig; injection Hdig as <-; lia.
Qed.

Lemma byte_of_nonneg (c : ascii) : 0 <= byte_of c.
Proof. unfold byte_of. lia. Qed.

Lemma parseUintLoop_result (s : string) :
  forall n un err,
    0 <= n <= maxUint64 ->
    parseUintLoop n s = (un, err) ->
    match err with
    | None => 0 <= un <= maxUint64
    | Some ErrRange => un = maxUint64
    | Some ErrSyntax => un = 0
    end.
Proof.
  induction s as [| c rest IH]; intros n un err Hn H; cbn [parseUintLoop] in H.
  - injection H as <- <-. exact Hn.
  - destruct (digit (byte_of c)) as [d |] eqn:Ed; [| by injection H as <- <-].
    pose proof (digit_nonneg _ _ (byte_of_nonneg c) Ed) as Hd.
    destruct (Z.leb_spec 10 d); [by injection H as <- <- |].
    destruct (Z.leb_spec (maxUint64 / 10 + 1) n); [by injection H as <- <- |].
    cbv zeta in H.
    destruct (Z.ltb_spec maxUint64 (n * 10 + d)); [by injection H as <- <- |].
    apply (IH (n * 10 + d)); [lia | exact H].
Qed.

Lemma strconv_ParseInt_range (s : string) (n : Z) :
  ParseInt s = (n, None) -> int64 n.
Proof.
  unfold ParseInt, int64. destruct s as [| c rest]; [discriminate |].
  set (sign := if Ascii.eqb c "+" then (false, rest)
               else if Ascii.eqb c "-" then (true, rest)
               else (false, String c rest)).
  destruct sign as [neg s1].
  destruct (ParseUint s1) as [un err] eqn:EU.
  assert (Hres : match err with
                 | None => 0 <= un <= maxUint64
                 | Some ErrRange => un = maxUint64
                 | Some ErrSyntax => un = 0
                 end).
  { unfold ParseUint in EU. destruct s1 as [| c1 r1]; [by injection EU as <- <- |].
    apply (parseUintLoop_result (String c1 r1) 0 un err); [unfold maxUint64; lia | exact EU]. }
  assert (Hmax : maxUint64 = 2 ^ 64 - 1) by reflexivity.
  destruct err as [[] |]; [discriminate | |]; cbv zeta;
    destruct neg; cbn [negb andb];
    repeat match goal with
           | |- context [Z.leb ?a ?b] => destruct (Z.leb_spec a b)
           | |- context [Z.ltb ?a ?b] => destruct (Z.ltb_spec a b)
           end;
    intros Hparsed; try discriminate Hparsed; injection Hparsed as <-; lia.
Qed.

End identifier_facts.

Lemma ParseInt_int64 (s : string) (n : Z) : ParseInt s = Ok n -> int64 n.
Proof.
  unfold ParseInt. destruct (strconv.ParseInt s) as [k [e |]] eqn:E; [discriminate |].
  intros H. injection H as <-. by apply (strconv_ParseInt_range s).
Qed.

Lemma ParseInt_plus_sign (c : ascii) (rest : string) :
  Ascii.eqb c "+" = false -> Ascii.eqb c "-" = false ->
  strconv.ParseInt (String "+" (String c rest)) = strconv.ParseInt (String c rest).
Proof.
  intros Hplus Hminus. cbn [strconv.ParseInt].
  change (Ascii.eqb "+" "+") with true. cbv iota. by rewrite Hplus, Hminus.
Qed.

(** X1.  Printing an [int64] id with [%d] and parsing the string back gives
    the id, so two different ids never share an identifier string. *)
Theorem identifier_round_trip (a b : Z) :
  int64 a -> int64 b ->
  ParseInt (strconv.FormatInt a) = Ok a
  /\ (strconv.FormatInt a = strconv.FormatInt b -> a = b).
Proof.
  intros Ha Hb. split; [by apply ParseInt_FormatInt_Ok |].
  intros Heq. pose proof (ParseInt_FormatInt_Ok a Ha) as Pa.
  rewrite Heq, (ParseInt_FormatInt_Ok b Hb) in Pa. by injection Pa.
Qed.

Lemma identifier_round_trip_witness :
  int64 (- 2 ^ 63) /\ int64 (2 ^ 63 - 1)
  /\ ParseInt (strconv.FormatInt (- 2 ^ 63)) = Ok (- 2 ^ 63)
  /\ (strconv.FormatInt (- 2 ^ 63) = strconv.FormatInt (2 ^ 63 - 1)
      -> - 2 ^ 63 = 2 ^ 63 - 1).
Proof.
  assert (Ha : int64 (- 2 ^ 63)) by (unfold int64; lia).
  assert (Hb : int64 (2 ^ 63 - 1)) by (unfold int64; lia).
  split; [exact Ha |]. split; [exact Hb |].
  exact (identifier_round_trip (- 2 ^ 63) (2 ^ 63 - 1) Ha Hb).
Defined.

Lemma ParseInt_leading_zero (c : ascii) (rest : string) :
  Ascii.eqb c "+" = false -> Ascii.eqb c "-" = false ->
  strconv.ParseInt (String "0" (String c rest)) = strconv.ParseInt (String c rest).
Proof.
  intros Hplus Hminus. cbn [strconv.ParseInt].
  change (Ascii.eqb "0" "+") with false. change (Ascii.eqb "0" "-") with false.
  cbv iota. rewrite Hplus, Hminus. reflexivity.
Qed.

(** X2.  Identifier strings are not canonical: when an identifier that does
    not start with a sign parses to an id, the same string with a plus sign or
    with a zero in front parses to the same id, so Read, Update and Delete
    reach the same remote macro through either. *)
Theorem identifier_not_canonical (c : ascii) (rest : string) (n : Z) :
  Ascii.eqb c "+" = false -> Ascii.eqb c "-" = false ->
  ParseInt (String c rest) = Ok n ->
  ParseInt (String "+" (String c rest)) = Ok n
  /\ ParseInt (String "0" (String c rest)) = Ok n.
Proof.
  intros Hplus Hminus. unfold ParseInt.
  rewrite (ParseInt_plus_sign c rest Hplus Hminus).
  rewrite (ParseInt_leading_zero c rest Hplus Hminus).
  destruct (strconv.ParseInt (String c rest)) as [k [e |]]; [discriminate |].
  intros H. by injection H as <-.
Qed.

Lemma identifier_not_canonical_witness :
  Ascii.eqb "1" "+" = false /\ Ascii.eqb "1" "-" = false
  /\ ParseInt "1234" = Ok 1234
  /\ ParseInt "+1234" = Ok 1234
  /\ ParseInt "01234" = Ok 1234.
Proof.
  split; [reflexivity |]. split; [reflexivity |]. split; [reflexivity |].
  exact (identifier_not_canonical "1" "234" 1234 eq_refl eq_refl eq_refl).
Defined.

(** ** The outcomes of the lifecycle functions *)


Section lifecycle_cases.
Context {D : Type} `{!identifiableGetterSetter D}.

Lemma createMacro_cases (d : D) (zd : MacroAPI) (r : run D) :
  createMacro d zd = Returns r ->
  (exists e, decodedId d = Err e
             /\ r = {| diags := FromErr e; data := d; remote := [] |})
  \/ (exists n e, decodedId d = Ok n
                  /\ CreateMacro zd (decoded d n) = Err e
                  /\ r = {| diags := FromErr e; data := d;
                            remote := [CallCreateMacro (decoded d n)] |})
  \/ (exists n m' d2 oe,
        decodedId d = Ok n
        /\ CreateMacro zd (decoded d n) = Ok m'
        /\ marshalMacro m' (SetId d (strconv.FormatInt (ID m'))) = (d2, oe)
        /\ r = {| diags := ended oe; data := d2;
                  remote := [CallCreateMacro (decoded d n)] |}).
Proof.
  unfold createMacro. intros H.
  apply exec_bind_Returns in H as (r0 & Hdec & H).
  apply unmarshalMacro_inv in Hdec. subst r0.
  destruct (decodedId d) as [n | e]; [| left; injection H as <-; eauto].
  right. destruct (CreateMacro zd (decoded d n)) as [m' | e] eqn:Ec.
  - right. destruct (marshalMacro m' _) as [d2 oe] eqn:Em.
    exists n, m', d2, oe. destruct oe; injection H as <-; eauto.
  - left. injection H as <-. eauto.
Qed.

Lemma readMacro_cases (d : D) (zd : MacroAPI) :
  (exists e, ParseInt (Id d) = Err e
             /\ readMacro d zd = Returns {| diags := FromErr e; data := d; remote := [] |})
  \/ (exists n e, ParseInt (Id d) = Ok n
                  /\ GetMacro zd n = Err e
                  /\ readMacro d zd
                     = Returns {| diags := FromErr e; data := d; remote := [CallGetMacro n] |})
  \/ (exists n m d' oe,
        ParseInt (Id d) = Ok n
        /\ GetMacro zd n = Ok m
        /\ marshalMacro m d = (d', oe)
        /\ readMacro d zd
           = Returns {| diags := ended oe; data := d'; remote := [CallGetMacro n] |}).
Proof.
  unfold readMacro. destruct (ParseInt (Id d)) as [n | e]; [right | left; eauto].
  destruct (GetMacro zd n) as [m | e] eqn:Eg; [right | left; eauto].
  destruct (marshalMacro m d) as [d' oe] eqn:Em.
  exists n, m, d', oe. destruct oe; auto.
Qed.

Lemma updateMacro_cases (d : D) (zd : MacroAPI) (r : run D) :
  updateMacro d zd = Returns r ->
  (exists e, r = {| diags := FromErr e; data := d; remote := [] |}
             /\ (decodedId d = Err e \/ ParseInt (Id d) = Err e))
  \/ (exists n e, ParseInt (Id d) = Ok n
                  /\ UpdateMacro zd n (decoded d n) = Err e
                  /\ r = {| diags := FromErr e; data := d;
                            remote := [CallUpdateMacro n (decoded d n)] |})
  \/ (exists n m' d' oe,
        ParseInt (Id d) = Ok n
        /\ UpdateMacro zd n (decoded d n) = Ok m'
        /\ marshalMacro m' d = (d', oe)
        /\ r = {| diags := ended oe; data := d';
                  remote := [CallUpdateMacro n (decoded d n)] |}).
Proof.
  unfold updateMacro. intros H.
  apply exec_bind_Returns in H as (r0 & Hdec & H).
  apply unmarshalMacro_inv in Hdec. subst r0.
  destruct (decodedId_cases d) as [[E Hd] | [(NE & k & Hk & Hd) | (NE & e & He & Hd)]];
    rewrite Hd in H.
  - left. rewrite E, ParseInt_empty_fails in H. injection H as <-.
    eexists. split; [reflexivity |]. right. by rewrite E.
  - right. rewrite Hk in H.
    destruct (UpdateMacro zd k (decoded d k)) as [m' | e] eqn:Eu.
    + right. destruct (marshalMacro m' d) as [d' oe] eqn:Em.
      exists k, m', d', oe. destruct oe; injection H as <-; eauto.
    + left. injection H as <-. eauto.
  - left. injection H as <-. eauto.
Qed.

Lemma deleteMacro_cases (d : D) (zd : MacroAPI) :
  (exists e, ParseInt (Id d) = Err e
             /\ deleteMacro d zd = Returns {| diags := FromErr e; data := d; remote := [] |})
  \/ (exists n, ParseInt (Id d) = Ok n
                /\ deleteMacro d zd
                   = Returns {| diags := ended (DeleteMacro zd n); data := d;
                                remote := [CallDeleteMacro n] |}).
Proof.
  unfold deleteMacro. destruct (ParseInt (Id d)) as [n | e]; [right | left; eauto].
  exists n. split; [reflexivity |]. by destruct (DeleteMacro zd n).
Qed.

End lifecycle_cases.

(** ** What an encode leaves alone *)

Section encode_frame.
Context {D : Type} `{!identifiableGetterSetter D} `{!StoresValues D}.

Lemma schemaOf_macroKeys (k : string) :
  schemaOf resourceZendeskMacro k = None <-> ~ In k macroKeys.
Proof.
  cbn [schemaOf resourceZendeskMacro macroKeys In].
  repeat match goal with
         | |- context [String.eqb k ?x] => destruct (String.eqb_spec k x) as [-> | ?]
         end; split; intros H; try discriminate H; try reflexivity;
    try (exfalso; apply H; tauto); intuition congruence.
Qed.

Lemma marshalMacro_lookup (field : Macro) (d d' : D) :
  marshalMacro field d = (d', None) ->
  written d' field
  /\ forall k, ~ In k macroKeys -> GetOk d' k = GetOk d k.
Proof.
  intros H. split; [exact (marshalMacro_written field d d' H) |].
  rewrite marshalMacro_eq in H. intros k Hk.
  rewrite (setSchemaFields_GetOk _ _ _ H). cbn [lastWrite].
  cbn [macroKeys In] in Hk.
  repeat match goal with
         | |- context [String.eqb ?x k] => destruct (String.eqb_spec x k) as [<- | ?]
         end; try reflexivity; exfalso; apply Hk; tauto.
Qed.

End encode_frame.

(** X3.  An accepted encode writes the seven fields of the macro under the
    seven keys the schema declares and nothing else: every other key of the
    bag and the identifier slot are as they were. *)
Theorem encode_touches_declared_keys_only
    {D : Type} `{!identifiableGetterSetter D} `{!IdentifierSlot D} `{!StoresValues D}
    (field : Macro) (d d' : D) :
  marshalMacro field d = (d', None) ->
  written d' field
  /\ Id d' = Id d
  /\ forall k, schemaOf resourceZendeskMacro k = None -> GetOk d' k = GetOk d k.
Proof.
  intros H. destruct (marshalMacro_lookup field d d' H) as [Hw Hframe].
  split; [exact Hw |]. split.
  - pose proof (marshalMacro_Id field d) as HId. by rewrite H in HId.
  - intros k Hk. apply Hframe. by apply schemaOf_macroKeys.
Qed.

Lemma encode_touches_declared_keys_only_witness :
  marshalMacro testField testBag = (fst (marshalMacro testField testBag), None)
  /\ written (fst (marshalMacro testField testBag)) testField
  /\ Id (fst (marshalMacro testField testBag)) = Id testBag
  /\ forall k, schemaOf resourceZendeskMacro k = None ->
               GetOk (fst (marshalMacro testField testBag)) k = GetOk testBag k.
Proof.
  split; [reflexivity |].
  exact (encode_touches_declared_keys_only testField testBag _ eq_refl).
Defined.

(** X4.  A later encode replaces an earlier one in full: encoding [m1] and
    then [m2] leaves every key of the bag as encoding [m2] alone does, so no
    field of [m1] survives. *)
Theorem encode_overwrites_previous
    {D : Type} `{!identifiableGetterSetter D} `{!StoresValues D}
    (m1 m2 : Macro) (d d1 d2 d2' : D) :
  marshalMacro m1 d = (d1, None) ->
  marshalMacro m2 d1 = (d2, None) ->
  marshalMacro m2 d = (d2', None) ->
  forall k, GetOk d2 k = GetOk d2' k.
Proof.
  intros H1 H2 H2' k.
  destruct (marshalMacro_lookup m1 d d1 H1) as [_ F1].
  destruct (marshalMacro_lookup m2 d1 d2 H2) as [W2 F2].
  destruct (marshalMacro_lookup m2 d d2' H2') as [W2' F2'].
  destruct (in_dec String.string_dec k macroKeys) as [Hin | Hout].
  - destruct W2 as (A1 & A2 & A3 & A4 & A5 & A6 & A7).
    destruct W2' as (B1 & B2 & B3 & B4 & B5 & B6 & B7).
    cbn [macroKeys In] in Hin.
    destruct Hin as [<- | [<- | [<- | [<- | [<- | [<- | [<- | []]]]]]]]; congruence.
  - by rewrite (F2 k Hout), (F1 k Hout), (F2' k Hout).
Qed.

Lemma encode_overwrites_previous_witness :
  marshalMacro testField (emptyBag "1") = (fst (marshalMacro testField (emptyBag "1")), None)
  /\ marshalMacro scenarioMacro (fst (marshalMacro testField (emptyBag "1")))
     = (fst (marshalMacro scenarioMacro (fst (marshalMacro testField (emptyBag "1")))), None)
  /\ marshalMacro scenarioMacro (emptyBag "1")
     = (fst (marshalMacro scenarioMacro (emptyBag "1")), None)
  /\ forall k,
      GetOk (fst (marshalMacro scenarioMacro (fst (marshalMacro testField (emptyBag "1"))))) k
      = GetOk (fst (marshalMacro scenarioMacro (emptyBag "1"))) k.
Proof.
  split; [reflexivity |]. split; [reflexivity |]. split; [reflexivity |].
  exact (encode_overwrites_previous testField scenarioMacro (emptyBag "1") _ _ _
           eq_refl eq_refl eq_refl).
Defined.

(** ** The lifecycle functions, path by path *)

(** X5.  Every id Read, Update and Delete hand to the remote client lies in
    the [int64] range. *)
Theorem remote_ids_are_int64
    {D : Type} `{!identifiableGetterSetter D} (d : D) (zd : MacroAPI) (r : run D) (n : Z) :
  (readMacro d zd = Returns r -> In (CallGetMacro n) (remote r) -> int64 n)
  /\ (forall m, updateMacro d zd = Returns r -> In (CallUpdateMacro n m) (remote r) ->
                int64 n)
  /\ (deleteMacro d zd = Returns r -> In (CallDeleteMacro n) (remote r) -> int64 n).
Proof.
  split; [| split].
  - intros H Hin.
    destruct (readMacro_cases d zd)
      as [(e & _ & Hr) | [(k & e & Hk & _ & Hr) | (k & m & d' & oe & Hk & _ & _ & Hr)]];
      rewrite Hr in H; injection H as <-; (destruct Hin as [Hin | []] || (exfalso; exact Hin));
      injection Hin as <-; by apply (ParseInt_int64 (Id d)).
  - intros m H Hin.
    destruct (updateMacro_cases d zd r H)
      as [(e & -> & _) | [(k & e & Hk & _ & ->) | (k & m' & d' & oe & Hk & _ & _ & ->)]];
      (destruct Hin as [Hin | []] || (exfalso; exact Hin)); injection Hin as <- _; by apply (ParseInt_int64 (Id d)).
  - intros H Hin.
    destruct (deleteMacro_cases d zd) as [(e & _ & Hr) | (k & Hk & Hr)];
      rewrite Hr in H; injection H as <-; (destruct Hin as [Hin | []] || (exfalso; exact Hin));
      injection Hin as <-; by apply (ParseInt_int64 (Id d)).
Qed.

Lemma remote_ids_are_int64_witness :
  deleteMacro (emptyBag "12345") echo
  = Returns {| diags := []; data := emptyBag "12345"; remote := [CallDeleteMacro 12345] |}
  /\ In (CallDeleteMacro 12345) [CallDeleteMacro 12345]
  /\ int64 12345.
Proof.
  split; [reflexivity |]. split; [left; reflexivity |].
  exact (proj2 (proj2 (remote_ids_are_int64 (emptyBag "12345") echo _ 12345))
           eq_refl (or_introl eq_refl)).
Defined.

(** X6.  A Read whose identifier parses to [n] and whose fetch succeeds makes
    the one call [GetMacro n] and leaves the identifier slot alone; when it
    returns no diagnostic the bag holds the seven fields of the fetched macro
    and every key outside the schema is as it was. *)
Theorem read_writes_fetched_macro
    {D : Type} `{!identifiableGetterSetter D} `{!IdentifierSlot D} `{!StoresValues D}
    (d : D) (zd : MacroAPI) (n : Z) (m : Macro) :
  ParseInt (Id d) = Ok n ->
  GetMacro zd n = Ok m ->
  exists r,
    readMacro d zd = Returns r
    /\ remote r = [CallGetMacro n]
    /\ Id (data r) = Id d
    /\ (diags r = [] ->
        written (data r) m
        /\ forall k, schemaOf resourceZendeskMacro k = None ->
                     GetOk (data r) k = GetOk d k).
Proof.
  intros Hid Hget.
  destruct (readMacro_cases d zd)
    as [(e & He & _) | [(k & e & Hk & He & _) | (k & m0 & d' & oe & Hk & Hm & Henc & Hr)]];
    [congruence | congruence |].
  assert (k = n) as -> by congruence. assert (m0 = m) as -> by congruence.
  eexists. split; [exact Hr |]. cbn [remote data diags].
  split; [reflexivity |]. split.
  - pose proof (marshalMacro_Id m d) as HId. by rewrite Henc in HId.
  - intros Hnone. destruct oe; [discriminate Hnone |].
    destruct (marshalMacro_lookup m d d' Henc) as [Hw Hframe].
    split; [exact Hw |]. intros key Hkey. apply Hframe. by apply schemaOf_macroKeys.
Qed.

Lemma read_writes_fetched_macro_witness :
  ParseInt (Id (emptyBag "1234")) = Ok 1234
  /\ GetMacro (scripted unused (Ok testField) unused None) 1234 = Ok testField
  /\ exists r,
      readMacro (emptyBag "1234") (scripted unused (Ok testField) unused None) = Returns r
      /\ remote r = [CallGetMacro 1234]
      /\ Id (data r) = Id (emptyBag "1234")
      /\ (diags r = [] ->
          written (data r) testField
          /\ forall k, schemaOf resourceZendeskMacro k = None ->
                       GetOk (data r) k = GetOk (emptyBag "1234") k).
Proof.
  split; [reflexivity |]. split; [reflexivity |].
  exact (read_writes_fetched_macro (emptyBag "1234")
           (scripted unused (Ok testField) unused None) 1234 testField eq_refl eq_refl).
Defined.

(** X7.  An Update on a bag of the declared shape whose identifier parses to
    [n] sends the decoded bag, with [n] as its id, in the one call
    [UpdateMacro n]; it leaves the identifier slot alone, and when it returns
    no diagnostic the bag holds the seven fields of the macro the remote
    system answered with. *)
Theorem update_sends_decoded_bag
    {D : Type} `{!identifiableGetterSetter D} `{!IdentifierSlot D} `{!StoresValues D}
    (d : D) (zd : MacroAPI) (n : Z) (m' : Macro) :
  conforms d = true ->
  ParseInt (Id d) = Ok n ->
  UpdateMacro zd n (decoded d n) = Ok m' ->
  exists r,
    updateMacro d zd = Returns r
    /\ remote r = [CallUpdateMacro n (decoded d n)]
    /\ Id (data r) = Id d
    /\ (diags r = [] -> written (data r) m').
Proof.
  intros Hc Hid Hup.
  assert (Hd : decodedId d = Ok n).
  { destruct (decodedId_cases d) as [[E _] | [(_ & k & Hk & Hd) | (_ & e & He & _)]].
    - rewrite E, ParseInt_empty_fails in Hid. discriminate Hid.
    - congruence.
    - congruence. }
  unfold updateMacro. rewrite (unmarshalMacro_conforms d Hc), Hd. cbn [exec_bind].
  rewrite Hid, Hup.
  pose proof (marshalMacro_Id m' d) as HId.
  destruct (marshalMacro m' d) as [d' oe] eqn:Henc. cbn [fst] in HId.
  destruct oe as [e |]; eexists; (split; [reflexivity |]); cbn [remote data diags];
    (split; [reflexivity |]); (split; [exact HId |]); intros Hnone;
    [discriminate Hnone | exact (marshalMacro_written m' d d' Henc)].
Qed.

Lemma update_sends_decoded_bag_witness :
  conforms testBag = true
  /\ ParseInt (Id testBag) = Ok 1234
  /\ UpdateMacro echo 1234 (decoded testBag 1234) = Ok (decoded testBag 1234)
  /\ exists r,
      updateMacro testBag echo = Returns r
      /\ remote r = [CallUpdateMacro 1234 (decoded testBag 1234)]
      /\ Id (data r) = Id testBag
      /\ (diags r = [] -> written (data r) (decoded testBag 1234)).
Proof.
  split; [reflexivity |]. split; [reflexivity |]. split; [reflexivity |].
  exact (update_sends_decoded_bag testBag echo 1234 (decoded testBag 1234)
           eq_refl eq_refl eq_refl).
Defined.

(** X8.  A Create on a bag of the declared shape sends the decoded bag in the
    one call [CreateMacro]; when the remote system answers with a macro the
    identifier slot holds the decimal string of its id, and when no
    diagnostic is returned the bag holds its seven fields. *)
Theorem create_writes_answer
    {D : Type} `{!identifiableGetterSetter D} `{!IdentifierSlot D} `{!StoresValues D}
    (d : D) (zd : MacroAPI) (n : Z) (m' : Macro) :
  conforms d = true ->
  decodedId d = Ok n ->
  CreateMacro zd (decoded d n) = Ok m' ->
  exists r,
    createMacro d zd = Returns r
    /\ remote r = [CallCreateMacro (decoded d n)]
    /\ Id (data r) = strconv.FormatInt (ID m')
    /\ (diags r = [] -> written (data r) m').
Proof.
  intros Hc Hd Hcreate.
  unfold createMacro. rewrite (unmarshalMacro_conforms d Hc), Hd. cbn [exec_bind].
  rewrite Hcreate. cbv zeta.
  pose proof (marshalMacro_Id m' (SetId d (strconv.FormatInt (ID m')))) as HId.
  rewrite Id_SetId in HId.
  destruct (marshalMacro m' (SetId d (strconv.FormatInt (ID m')))) as [d' oe] eqn:Henc.
  cbn [fst] in HId.
  destruct oe as [e |]; eexists; (split; [reflexivity |]); cbn [remote data diags];
    (split; [reflexivity |]); (split; [exact HId |]); intros Hnone;
    [discriminate Hnone | exact (marshalMacro_written m' _ d' Henc)].
Qed.

Lemma create_writes_answer_witness :
  conforms scenarioBag = true
  /\ decodedId scenarioBag = Ok 0
  /\ CreateMacro scenarioClient (decoded scenarioBag 0) = Ok scenarioMacro
  /\ exists r,
      createMacro scenarioBag scenarioClient = Returns r
      /\ remote r = [CallCreateMacro (decoded scenarioBag 0)]
      /\ Id (data r) = strconv.FormatInt (ID scenarioMacro)
      /\ (diags r = [] -> written (data r) scenarioMacro).
Proof.
  split; [reflexivity |]. split; [reflexivity |]. split; [reflexivity |].
  exact (create_writes_answer scenarioBag scenarioClient 0 scenarioMacro
           eq_refl eq_refl eq_refl).
Defined.

(** X9.  When the identifier parses to [n] and the remote call fails, Read,
    Update (on a bag of the declared shape) and Delete each return exactly one
    diagnostic, which carries the remote error itself, after the one call and
    with the bag as it was. *)
Theorem remote_error_leaves_bag
    {D : Type} `{!identifiableGetterSetter D} (d : D) (zd : MacroAPI) (n : Z) (e : error) :
  ParseInt (Id d) = Ok n ->
  (GetMacro zd n = Err e ->
   readMacro d zd
   = Returns {| diags := [ {| severity := Error; Summary := e |} ]; data := d;
                remote := [CallGetMacro n] |})
  /\ (conforms d = true -> UpdateMacro zd n (decoded d n) = Err e ->
      updateMacro d zd
      = Returns {| diags := [ {| severity := Error; Summary := e |} ]; data := d;
                   remote := [CallUpdateMacro n (decoded d n)] |})
  /\ (DeleteMacro zd n = Some e ->
      deleteMacro d zd
      = Returns {| diags := [ {| severity := Error; Summary := e |} ]; data := d;
                   remote := [CallDeleteMacro n] |}).
Proof.
  intros Hid. split; [| split].
  - intros Hget. unfold readMacro. by rewrite Hid, Hget.
  - intros Hc Hup.
    assert (Hd : decodedId d = Ok n).
    { destruct (decodedId_cases d) as [[E _] | [(_ & k & Hk & Hd) | (_ & e' & He & _)]].
      - rewrite E, ParseInt_empty_fails in Hid. discriminate Hid.
      - congruence.
      - congruence. }
    unfold updateMacro. rewrite (unmarshalMacro_conforms d Hc), Hd. cbn [exec_bind].
    by rewrite Hid, Hup.
  - intros Hdel. unfold deleteMacro. by rewrite Hid, Hdel.
Qed.

Lemma remote_error_leaves_bag_witness :
  ParseInt (Id testBag) = Ok 1234
  /\ GetMacro gone 1234 = Err (ErrorString "RecordNotFound")
  /\ readMacro testBag gone
     = Returns {| diags := [ {| severity := Error;
                                Summary := ErrorString "RecordNotFound" |} ];
                  data := testBag; remote := [CallGetMacro 1234] |}.
Proof.
  split; [reflexivity |]. split; [reflexivity |].
  exact (proj1 (remote_error_leaves_bag testBag gone 1234 (ErrorString "RecordNotFound")
                  eq_refl) eq_refl).
Defined.

(** X10.  Read, Update and Delete never change the identifier slot, whatever
    the remote system answers and whether or not they succeed: only Create
    calls [SetId]. *)
Theorem identifier_set_by_create_only
    {D : Type} `{!identifiableGetterSetter D} `{!IdentifierSlot D}
    (d : D) (zd : MacroAPI) (r : run D) :
  readMacro d zd = Returns r \/ updateMacro d zd = Returns r \/ deleteMacro d zd = Returns r ->
  Id (data r) = Id d.
Proof.
  intros [H | [H | H]].
  - destruct (readMacro_cases d zd)
      as [(e & _ & Hr) | [(k & e & _ & _ & Hr) | (k & m & d' & oe & _ & _ & Henc & Hr)]];
      rewrite Hr in H; injection H as <-; try reflexivity.
    pose proof (marshalMacro_Id m d) as HId. by rewrite Henc in HId.
  - destruct (updateMacro_cases d zd r H)
      as [(e & -> & _) | [(k & e & _ & _ & ->) | (k & m' & d' & oe & _ & _ & Henc & ->)]];
      try reflexivity.
    pose proof (marshalMacro_Id m' d) as HId. by rewrite Henc in HId.
  - destruct (deleteMacro_cases d zd) as [(e & _ & Hr) | (k & _ & Hr)];
      rewrite Hr in H; by injection H as <-.
Qed.

Lemma identifier_set_by_create_only_witness :
  readMacro testBag echo
  = Returns {| diags := [];
               data := fst (marshalMacro (withID zeroMacro 1234) testBag);
               remote := [CallGetMacro 1234] |}
  /\ Id (fst (marshalMacro (withID zeroMacro 1234) testBag)) = Id testBag.
Proof.
  split; [reflexivity |].
  exact (identifier_set_by_create_only testBag echo _ (or_introl eq_refl)).
Defined.

(** X11.  Each lifecycle function makes at most one remote call, and only of
    its own method: Create calls [CreateMacro], Read [GetMacro], Update
    [UpdateMacro] and Delete [DeleteMacro]. *)
Theorem one_remote_call_of_own_method
    {D : Type} `{!identifiableGetterSetter D} (d : D) (zd : MacroAPI) (r : run D) :
  (createMacro d zd = Returns r ->
   remote r = [] \/ exists m, remote r = [CallCreateMacro m])
  /\ (readMacro d zd = Returns r ->
      remote r = [] \/ exists n, remote r = [CallGetMacro n])
  /\ (updateMacro d zd = Returns r ->
      remote r = [] \/ exists n m, remote r = [CallUpdateMacro n m])
  /\ (deleteMacro d zd = Returns r ->
      remote r = [] \/ exists n, remote r = [CallDeleteMacro n]).
Proof.
  split; [| split; [| split]]; intros H.
  - destruct (createMacro_cases d zd r H)
      as [(e & _ & ->) | [(k & e & _ & _ & ->) | (k & m' & d' & oe & _ & _ & _ & ->)]];
      cbn [remote]; eauto.
  - destruct (readMacro_cases d zd)
      as [(e & _ & Hr) | [(k & e & _ & _ & Hr) | (k & m & d' & oe & _ & _ & _ & Hr)]];
      rewrite Hr in H; injection H as <-; cbn [remote]; eauto.
  - destruct (updateMacro_cases d zd r H)
      as [(e & -> & _) | [(k & e & _ & _ & ->) | (k & m' & d' & oe & _ & _ & _ & ->)]];
      cbn [remote]; eauto.
  - destruct (deleteMacro_cases d zd) as [(e & _ & Hr) | (k & _ & Hr)];
      rewrite Hr in H; injection H as <-; cbn [remote]; eauto.
Qed.

Lemma one_remote_call_of_own_method_witness :
  createMacro scenarioBag scenarioClient = Returns scenarioRun
  /\ (remote scenarioRun = [] \/ exists m, remote scenarioRun = [CallCreateMacro m]).
Proof.
  split; [reflexivity |].
  exact (proj1 (one_remote_call_of_own_method scenarioBag scenarioClient scenarioRun)
           eq_refl).
Defined.

(** X12.  The identifier a successful Create leaves is one Read and Delete
    accept: when the remote system answered the Create with an [int64] id
    [N], a Read of the resulting bag fetches [N] and a Delete of it deletes
    [N], against any client. *)
Theorem create_then_read_or_delete
    {D : Type} `{!identifiableGetterSetter D} `{!IdentifierSlot D}
    (d : D) (zd zd' : MacroAPI) (N : Z) (r : run D) :
  int64 N ->
  (forall m, exists m', CreateMacro zd m = Ok m' /\ ID m' = N) ->
  createMacro d zd = Returns r ->
  diags r = [] ->
  (exists r', readMacro (data r) zd' = Returns r' /\ remote r' = [CallGetMacro N])
  /\ (exists r', deleteMacro (data r) zd' = Returns r' /\ remote r' = [CallDeleteMacro N]).
Proof.
  intros HN Hcreate H Hdiags.
  assert (Hid : ParseInt (Id (data r)) = Ok N).
  { destruct (createMacro_cases d zd r H)
      as [(e & _ & ->) | [(k & e & _ & _ & ->) | (k & m' & d' & oe & _ & Hc & Henc & ->)]];
      try discriminate Hdiags.
    destruct (Hcreate (decoded d k)) as (m0 & Hm0 & <-).
    assert (m' = m0) as -> by congruence. cbn [data].
    pose proof (marshalMacro_Id m0 (SetId d (strconv.FormatInt (ID m0)))) as HId.
    rewrite Henc, Id_SetId in HId. cbn [fst] in HId. rewrite HId.
    by apply ParseInt_FormatInt_Ok. }
  split.
  - destruct (readMacro_cases (data r) zd')
      as [(e & He & _) | [(k & e & Hk & _ & Hr) | (k & m & d' & oe & Hk & _ & _ & Hr)]];
      [congruence | |]; assert (k = N) as -> by congruence; eauto.
  - destruct (deleteMacro_cases (data r) zd') as [(e & He & _) | (k & Hk & Hr)];
      [congruence |]. assert (k = N) as -> by congruence. eauto.
Qed.

Lemma create_then_read_or_delete_witness :
  int64 777
  /\ (forall m, exists m', CreateMacro scenarioClient m = Ok m' /\ ID m' = 777)
  /\ createMacro scenarioBag scenarioClient = Returns scenarioRun
  /\ diags scenarioRun = []
  /\ (exists r', readMacro (data scenarioRun) gone = Returns r'
                 /\ remote r' = [CallGetMacro 777])
  /\ (exists r', deleteMacro (data scenarioRun) gone = Returns r'
                 /\ remote r' = [CallDeleteMacro 777]).
Proof.
  assert (HN : int64 777) by (unfold int64; lia).
  assert (Hc : forall m, exists m', CreateMacro scenarioClient m = Ok m' /\ ID m' = 777)
    by (intros m; eexists; split; reflexivity).
  split; [exact HN |]. split; [exact Hc |].
  split; [reflexivity |]. split; [reflexivity |].
  exact (create_then_read_or_delete scenarioBag scenarioClient gone 777 scenarioRun
           HN Hc eq_refl eq_refl).
Defined.

(** ** The decode at its edges *)

(** X13.  [unmarshalMacro] panics exactly when the identifier slot is empty
    or parses and some key the schema declares holds a value that is not of
    the declared type; a malformed identifier is reported as an error before
    any field is looked at. *)
Theorem decode_panics_iff
    {D : Type} `{!identifiableGetterSetter D} (d : D) :
  unmarshalMacro d = Panics <-> (conforms d = false /\ exists n, decodedId d = Ok n).
Proof.
  split.
  - intros Hp. split.
    + destruct (conforms d) eqn:Hc; [| reflexivity].
      rewrite (unmarshalMacro_conforms d Hc) in Hp. discriminate Hp.
    + destruct (decodedId_cases d) as [[E Hd] | [(NE & k & Hk & Hd) | (NE & e & He & Hd)]];
        eauto.
      exfalso. revert Hp. unfold unmarshalMacro.
      destruct (String.eqb_spec (Id d) "") as [E | _]; [contradiction |].
      by rewrite He.
  - intros [Hc [n Hn]]. destruct (unmarshalMacro d) as [r |] eqn:Hr; [| reflexivity].
    destruct (unmarshalMacro_shape d r Hr) as [Hc' | [e He]]; congruence.
Qed.

Lemma decode_panics_iff_witness :
  conforms illTypedBag = false
  /\ (exists n, decodedId illTypedBag = Ok n)
  /\ unmarshalMacro illTypedBag = Panics.
Proof.
  assert (H : conforms illTypedBag = false /\ exists n, decodedId illTypedBag = Ok n)
    by (split; [reflexivity | exists 5; reflexivity]).
  split; [exact (proj1 H) |]. split; [exact (proj2 H) |].
  exact (proj2 (decode_panics_iff illTypedBag) H).
Defined.

Section zero_values.

Lemma zeroed_views (o1 o2 : option any) :
  zeroed o1 = zeroed o2 ->
  match o1 with Some (VString s) => s | _ => "" end
  = match o2 with Some (VString s) => s | _ => "" end
  /\ match o1 with Some (VInt n) => n | _ => 0 end
     = match o2 with Some (VInt n) => n | _ => 0 end
  /\ match o1 with Some (VBool b) => b | _ => false end
     = match o2 with Some (VBool b) => b | _ => false end
  /\ match o1 with Some (VSlice l) => map actionOf l | _ => [] end
     = match o2 with Some (VSlice l) => map actionOf l | _ => [] end.
Proof.
  destruct o1 as [[[| c1 s1] | [| p1 | p1] | [] | [| v1 l1] | m1 | a1] |];
    destruct o2 as [[[| c2 s2] | [| p2 | p2] | [] | [| v2 l2] | m2 | a2] |];
    cbn [zeroed]; intros H; try discriminate H; try injection H as H;
    repeat match goal with E : _ = _ |- _ => try injection E as E; subst end;
    repeat split; reflexivity.
Qed.

End zero_values.

(** X14.  The decode cannot tell an absent key from a key that holds the zero
    value of its type: two bags of the declared shape with the same
    identifier whose seven keys agree up to zero values (the empty string, 0,
    [false], the empty list) decode to the same result. *)
Theorem decode_cannot_tell_zero_from_absent
    {D1 D2 : Type} `{!identifiableGetterSetter D1} `{!identifiableGetterSetter D2}
    (d1 : D1) (d2 : D2) :
  conforms d1 = true -> conforms d2 = true ->
  Id d1 = Id d2 ->
  (forall k, In k macroKeys -> zeroed (GetOk d1 k) = zeroed (GetOk d2 k)) ->
  unmarshalMacro d1 = unmarshalMacro d2.
Proof.
  intros Hc1 Hc2 HId Hkeys.
  rewrite (unmarshalMacro_conforms d1 Hc1), (unmarshalMacro_conforms d2 Hc2).
  assert (Hd : decodedId d1 = decodedId d2) by (unfold decodedId; by rewrite HId).
  rewrite Hd. destruct (decodedId d2) as [n | e]; [| reflexivity].
  assert (Hview : forall k, In k macroKeys ->
            stringAt d1 k = stringAt d2 k /\ intAt d1 k = intAt d2 k
            /\ boolAt d1 k = boolAt d2 k).
  { intros k Hk. destruct (zeroed_views _ _ (Hkeys k Hk)) as (Hs & Hi & Hb & _).
    by repeat split. }
  assert (Hacts : actionsAt d1 = actionsAt d2).
  { unfold actionsAt.
    exact (proj2 (proj2 (proj2 (zeroed_views _ _
             (Hkeys "actions" ltac:(cbn [macroKeys In]; tauto)))))). }
  unfold decoded. rewrite Hacts.
  rewrite (proj1 (Hview "url" ltac:(cbn [macroKeys In]; tauto))).
  rewrite (proj1 (Hview "title" ltac:(cbn [macroKeys In]; tauto))).
  rewrite (proj1 (Hview "description" ltac:(cbn [macroKeys In]; tauto))).
  rewrite (proj1 (Hview "restriction" ltac:(cbn [macroKeys In]; tauto))).
  rewrite (proj1 (proj2 (Hview "position" ltac:(cbn [macroKeys In]; tauto)))).
  rewrite (proj2 (proj2 (Hview "active" ltac:(cbn [macroKeys In]; tauto)))).
  reflexivity.
Qed.

Lemma decode_cannot_tell_zero_from_absent_witness :
  conforms zeroBag = true /\ conforms (emptyBag "5") = true
  /\ Id zeroBag = Id (emptyBag "5")
  /\ (forall k, In k macroKeys ->
                zeroed (GetOk zeroBag k) = zeroed (GetOk (emptyBag "5") k))
  /\ unmarshalMacro zeroBag = unmarshalMacro (emptyBag "5").
Proof.
  assert (Hk : forall k, In k macroKeys ->
                         zeroed (GetOk zeroBag k) = zeroed (GetOk (emptyBag "5") k)).
  { intros k Hin. cbn [macroKeys In] in Hin.
    destruct Hin as [<- | [<- | [<- | [<- | [<- | [<- | [<- | []]]]]]]]; reflexivity. }
  split; [reflexivity |]. split; [reflexivity |]. split; [reflexivity |].
  split; [exact Hk |].
  exact (decode_cannot_tell_zero_from_absent zeroBag (emptyBag "5")
           eq_refl eq_refl eq_refl Hk).
Defined.

(** ** The destroy check *)

Section destroy_check_facts.
Variable asZendeskError : error -> option Z.
Variable errorText : error -> string.
Variable client : MacroAPI.

Lemma testMacroDestroyed_cons (k : string) (r : terraform.ResourceState)
    (rest : list (string * terraform.ResourceState)) :
  testMacroDestroyed asZendeskError errorText client ((k, r) :: rest) = None
  <-> destroyed asZendeskError client (k, r)
      /\ testMacroDestroyed asZendeskError errorText client rest = None.
Proof.
  cbn [testMacroDestroyed destroyed].
  destruct (String.prefix "data" k) eqn:Ep; [tauto |].
  destruct (String.eqb_spec (terraform.Type_ r) "zendesk_macro") as [Et | Et];
    cbn [negb]; [| tauto].
  destruct (ParseInt (terraform.Primary_ID r)) as [id | e] eqn:Ei.
  - destruct (GetMacro client id) as [m | e] eqn:Eg.
    + split; [discriminate |].
      intros [[H | [H | (id' & err & Hid & Hget & _)]] _]; [discriminate | contradiction |].
      injection Hid as <-. congruence.
    + destruct (asZendeskError e) as [status |] eqn:Es.
      * destruct (Z.eqb_spec status 404) as [-> | Hne]; cbn [negb].
        -- split; [| tauto]. intros H. split; [| exact H].
           right. right. exists id, e. by repeat split.
        -- split; [discriminate |].
           intros [[H | [H | (id' & err & Hid & Hget & Hs)]] _];
             [discriminate | contradiction |].
           injection Hid as <-. congruence.
      * split; [discriminate |].
        intros [[H | [H | (id' & err & Hid & Hget & Hs)]] _];
          [discriminate | contradiction |].
        injection Hid as <-. congruence.
  - split; [discriminate |].
    intros [[H | [H | (id' & err & Hid & _)]] _]; [discriminate | contradiction |].
    discriminate Hid.
Qed.

Lemma testMacroDestroyed_Forall (resources : list (string * terraform.ResourceState)) :
  testMacroDestroyed asZendeskError errorText client resources = None
  <-> Forall (destroyed asZendeskError client) resources.
Proof.
  induction resources as [| [k r] rest IH].
  - split; [constructor | reflexivity].
  - rewrite testMacroDestroyed_cons, IH. split.
    + intros [H1 H2]. by constructor.
    + intros H. by inversion H.
Qed.

End destroy_check_facts.

(** X15.  The destroy check passes exactly when every resource it looks at is
    destroyed: outside the data sources and the other resource types, each
    [zendesk_macro] has an id that parses and a fetch that fails with a
    not-found error of the client library.  Whether it passes does not depend
    on the order in which the resources are visited. *)
Theorem destroy_check_passes_iff
    (asZendeskError : error -> option Z) (errorText : error -> string) (client : MacroAPI)
    (resources : list (string * terraform.ResourceState)) :
  (testMacroDestroyed asZendeskError errorText client resources = None
   <-> Forall (destroyed asZendeskError client) resources)
  /\ (forall resources',
        Permutation resources resources' ->
        testMacroDestroyed asZendeskError errorText client resources = None ->
        testMacroDestroyed asZendeskError errorText client resources' = None).
Proof.
  split; [apply testMacroDestroyed_Forall |].
  intros resources' Hperm H.
  apply testMacroDestroyed_Forall. apply testMacroDestroyed_Forall in H.
  by rewrite <- Hperm.
Qed.

Lemma destroy_check_passes_iff_witness :
  Permutation testResources (rev testResources)
  /\ testMacroDestroyed allNotFound (fun _ => "") gone testResources = None
  /\ testMacroDestroyed allNotFound (fun _ => "") gone (rev testResources) = None.
Proof.
  assert (Hp : Permutation testResources (rev testResources)) by apply Permutation_rev.
  split; [exact Hp |]. split; [reflexivity |].
  exact (proj2 (destroy_check_passes_iff allNotFound (fun _ => "") gone testResources)
           (rev testResources) Hp eq_refl).
Defined.

(** ** Which identifiers parse *)

Section accepted_identifiers.

Lemma digit_decimal (c : ascii) (d : Z) :
  strconv.digit (strconv.byte_of c) = Some d -> d < 10 -> isDecimal c = true.
Proof.
  unfold strconv.digit, isDecimal.
  destruct ((48 <=? strconv.byte_of c) && (strconv.byte_of c <=? 57)); [reflexivity |].
  destruct ((97 <=? strconv.lower (strconv.byte_of c))
            && (strconv.lower (strconv.byte_of c) <=? 122)) eqn:E; [| discriminate].
  apply andb_prop in E as [E1 _]. apply Z.leb_le in E1.
  intros H. injection H as <-. lia.
Qed.

Lemma parseUintLoop_decimal (s : string) :
  forall n un,
    strconv.parseUintLoop n s = (un, None) ->
    forallb isDecimal (list_ascii_of_string s) = true.
Proof.
  induction s as [| c rest IH]; intros n un H; [reflexivity |].
  cbn [strconv.parseUintLoop] in H. cbn [list_ascii_of_string forallb].
  destruct (strconv.digit (strconv.byte_of c)) as [d |] eqn:Ed; [| discriminate H].
  destruct (Z.leb_spec 10 d) as [| Hd]; [discriminate H |].
  rewrite (digit_decimal c d Ed Hd). cbn [andb].
  destruct (strconv.maxUint64 / 10 + 1 <=? n); [discriminate H |].
  cbv zeta in H. destruct (strconv.maxUint64 <? n * 10 + d); [discriminate H |].
  exact (IH _ _ H).
Qed.

Lemma ParseUint_range_value (s : string) (un : Z) :
  strconv.ParseUint s = (un, Some strconv.ErrRange) -> un = strconv.maxUint64.
Proof.
  destruct s as [| c rest]; [discriminate |]. intros H.
  assert (Hzero : 0 <= 0 <= strconv.maxUint64) by (unfold strconv.maxUint64; lia).
  exact (parseUintLoop_result (String c rest) 0 un (Some strconv.ErrRange) Hzero H).
Qed.

Lemma ParseUint_decimal (s : string) (un : Z) :
  strconv.ParseUint s = (un, None) ->
  s <> "" /\ forallb isDecimal (list_ascii_of_string s) = true.
Proof.
  destruct s as [| c rest]; [discriminate |]. intros H.
  split; [discriminate | exact (parseUintLoop_decimal _ _ _ H)].
Qed.

Lemma strconv_ParseInt_unsigned (s : string) (n : Z) :
  strconv.ParseInt s = (n, None) -> exists un, strconv.ParseUint (unsigned s) = (un, None).
Proof.
  destruct s as [| c rest]; [discriminate |].
  unfold strconv.ParseInt, unsigned.
  assert (Hmax : strconv.maxUint64 = 2 ^ 64 - 1) by reflexivity.
  assert (Hrange : forall neg un,
            (if negb neg && (2 ^ 63 <=? un) then (2 ^ 63 - 1, Some strconv.ErrRange)
             else if neg && (2 ^ 63 <? un) then (- 2 ^ 63, Some strconv.ErrRange)
             else ((if neg then - un else un), None)) = (n, None) ->
            un = strconv.maxUint64 -> False).
  { intros neg un Hres ->. destruct neg; cbn [negb andb] in Hres.
    - destruct (Z.ltb_spec (2 ^ 63) strconv.maxUint64); [discriminate Hres | lia].
    - destruct (Z.leb_spec (2 ^ 63) strconv.maxUint64); [discriminate Hres | lia]. }
  destruct (Ascii.eqb c "+"); cbn [orb]; [| destruct (Ascii.eqb c "-")];
    match goal with
    | |- context [strconv.ParseUint ?body] =>
        destruct (strconv.ParseUint body) as [un err] eqn:EU
    end;
    (destruct err as [[] |]; [discriminate | | eauto]);
    cbv zeta; intros Hres; exfalso;
    (first [apply (Hrange true un Hres) | apply (Hrange false un Hres)]);
    exact (ParseUint_range_value _ _ EU).
Qed.

End accepted_identifiers.

(** X16.  An identifier that parses is an optional plus or minus sign
    followed by at least one character, all of them decimal digits: no
    spaces, no underscores, no letters, no second sign. *)
Theorem accepted_identifiers_are_decimal (s : string) (n : Z) :
  ParseInt s = Ok n ->
  unsigned s <> "" /\ forallb isDecimal (list_ascii_of_string (unsigned s)) = true.
Proof.
  unfold ParseInt. destruct (strconv.ParseInt s) as [k [e |]] eqn:E; [discriminate |].
  intros _. destruct (strconv_ParseInt_unsigned s k E) as [un Hun].
  exact (ParseUint_decimal _ _ Hun).
Qed.

Lemma accepted_identifiers_are_decimal_witness :
  ParseInt "-1234" = Ok (-1234)
  /\ unsigned "-1234" <> ""
  /\ forallb isDecimal (list_ascii_of_string (unsigned "-1234")) = true.
Proof.
  split; [reflexivity |].
  exact (accepted_identifiers_are_decimal "-1234" (-1234) eq_refl).
Defined.


(** ** A Read followed by an Update *)

(** X17.  On a bag that stores what it is given, the bag a successful Read
    leaves cannot be decoded: its [actions] key holds the
    [[]client.MacroAction] the Read wrote, so an Update or a Create on that
    bag panics in the decode, before any remote call. *)
Theorem update_after_read_panics
    {D : Type} `{!identifiableGetterSetter D} `{!IdentifierSlot D} `{!StoresValues D}
    (d : D) (zd zd' : MacroAPI) (n : Z) (m : Macro) (r : run D) :
  ParseInt (Id d) = Ok n ->
  GetMacro zd n = Ok m ->
  readMacro d zd = Returns r ->
  diags r = [] ->
  updateMacro (data r) zd' = Panics /\ createMacro (data r) zd' = Panics.
Proof.
  intros Hid Hget Hr Hdiags.
  assert (Hdec : unmarshalMacro (data r) = Panics).
  { destruct (readMacro_cases d zd)
      as [(e & He & _) | [(k & e & Hk & He & _) | (k & m0 & d' & oe & Hk & Hm & Henc & Hr')]];
      [congruence | congruence |].
    rewrite Hr' in Hr. injection Hr as <-. cbn [diags data] in *.
    destruct oe; [discriminate Hdiags |].
    destruct (marshalMacro_written m0 d d' Henc)
      as (Hurl & Htitle & Hdesc & Hpos & Hres & Hact & Hacts).
    pose proof (marshalMacro_Id m0 d) as HId. rewrite Henc in HId. cbn [fst] in HId.
    unfold unmarshalMacro, readField. rewrite HId.
    destruct (String.eqb_spec (Id d) "") as [E | _].
    - rewrite E, ParseInt_empty_fails in Hid. discriminate Hid.
    - rewrite Hid, Hurl, Htitle, Hdesc, Hpos, Hres, Hact, Hacts. reflexivity. }
  unfold updateMacro, createMacro. by rewrite Hdec.
Qed.

Lemma update_after_read_panics_witness :
  ParseInt (Id (emptyBag "1234")) = Ok 1234
  /\ GetMacro (scripted unused (Ok testField) unused None) 1234 = Ok testField
  /\ readMacro (emptyBag "1234") (scripted unused (Ok testField) unused None)
     = Returns {| diags := [];
                  data := fst (marshalMacro testField (emptyBag "1234"));
                  remote := [CallGetMacro 1234] |}
  /\ updateMacro (fst (marshalMacro testField (emptyBag "1234"))) echo = Panics
  /\ createMacro (fst (marshalMacro testField (emptyBag "1234"))) echo = Panics.
Proof.
  split; [reflexivity |]. split; [reflexivity |]. split; [reflexivity |].
  exact (update_after_read_panics (emptyBag "1234")
           (scripted unused (Ok testField) unused None) echo 1234 testField _
           eq_refl eq_refl eq_refl eq_refl).
Defined.
